(** * Team / project / task manager: resolvers and overview dashboard

    A shallow embedding of the GraphQL resolver layer (both resolver files of
    the repository) and of the derived-data computations of the overview page
    ([MyOverview.jsx]), with the properties the specification states about
    them. *)

From stdpp Require Import gmap strings list fin_maps.
From Stdlib Require Import Ascii ZArith Lia.

Local Open Scope string_scope.
Local Open Scope list_scope.

(** * Overview dashboard ([client/src/pages/MyOverview.jsx]) *)

Module Overview.

(** Modelled from the spec: the schema's status type is not part of the
    sources; the data model gives the enumeration Created / Pending /
    InProgress / Completed, which is also the list in the page's
    commented-out colour tables. *)
Inductive Status := Created | Pending | InProgress | Completed.

#[export] Instance Status_eq_dec : EqDecision Status.
Proof. solve_decision. Defined.

(** The property key a status value becomes in [acc[project.projectStatus]]. *)
Definition status_key (s : Status) : string :=
  match s with
  | Created => "Created"
  | Pending => "Pending"
  | InProgress => "InProgress"
  | Completed => "Completed"
  end.

(** Names an object literal [{}] inherits from [Object.prototype]: for such a
    key [acc[k]] is truthy before any own property is written.  No status key
    is among them, which is why the accumulator is a plain finite map. *)
Definition objectPrototypeKeys : list string :=
  [ "constructor"; "toString"; "toLocaleString"; "valueOf"; "hasOwnProperty";
    "isPrototypeOf"; "propertyIsEnumerable"; "__proto__"; "__defineGetter__";
    "__defineSetter__"; "__lookupGetter__"; "__lookupSetter__" ].

(** A calendar day is counted in days since 1 January 1970.  A [Date] holds
    a time value in milliseconds, or NaN ("Invalid Date"); time values are
    read on the local clock, whose days are taken to be 24 hours long. *)
Definition Day := Z.
Definition Date := option Z.

Definition msPerDay : Z := 86400000.

(** The expanded records of [projectsData.user]: only the fields the page
    reads.  [dateDue] is text in the form "Mon D YYYY". *)
Record Project := mkProject {
  projectStatus : Status;
  project_dateDue : string
}.

Record Task := mkTask {
  taskStatus : Status;
  task_dateDue : string
}.

(** ** Status tallies *)

(** One step of the [reduce] callback:
    [if (acc[k]) { acc[k]++ } else { acc[k] = 1 }].  A stored [0] is falsy. *)
Definition tally_step (acc : gmap string nat) (k : string) : gmap string nat :=
  match acc !! k with
  | Some n => if (n =? 0)%nat then <[k := 1%nat]> acc else <[k := S n]> acc
  | None => <[k := 1%nat]> acc
  end.

Definition tally (keys : list string) : gmap string nat :=
  foldl tally_step ∅ keys.

Definition projectStatusCounts (projects : list Project) : gmap string nat :=
  tally (map (fun project => status_key (projectStatus project)) projects).

Definition totalProjectsCount (projects : list Project) : nat :=
  length projects.

Definition taskStatusCounts (tasks : list Task) : gmap string nat :=
  tally (map (fun task => status_key (taskStatus task)) tasks).

Definition totalTasksCount (tasks : list Task) : nat :=
  length tasks.

(** [Object.keys(o)] and [Object.entries(o)]; the order is the map's own, and
    the sums below do not depend on it. *)
Definition Object_keys (o : gmap string nat) : list string :=
  (map_to_list o).*1.

Definition Object_entries (o : gmap string nat) : list (string * nat) :=
  map_to_list o.

Record ChartDatum := mkChartDatum {
  chart_value : nat;
  chart_label : string
}.

Definition chartData (counts : gmap string nat) : list ChartDatum :=
  map (fun '(status, count) => mkChartDatum count status) (Object_entries counts).

Definition projectChartData (projects : list Project) : list ChartDatum :=
  chartData (projectStatusCounts projects).

Definition taskChartData (tasks : list Task) : list ChartDatum :=
  chartData (taskStatusCounts tasks).

(** The sum of the per-status counts of a tally. *)
Definition sum_counts (counts : gmap string nat) : nat :=
  sum_list (map_to_list counts).*2.

(** [Object.keys(taskStatusCounts).filter(status => status !== "Completed")
      .reduce((acc, status) => acc + taskStatusCounts[status], 0)] *)
Definition incompleteCount (counts : gmap string nat) : nat :=
  foldl (fun acc status => (acc + counts !!! status)%nat) 0%nat
    (filter (fun status => status ≠ "Completed") (Object_keys counts)).

Definition incompleteTasksCount (tasks : list Task) : nat :=
  incompleteCount (taskStatusCounts tasks).

(** [taskStatusCounts.Completed || 0] *)
Definition completedTasksCount (tasks : list Task) : nat :=
  default 0%nat (taskStatusCounts tasks !! "Completed").

(** ** Upcoming due dates *)

(** [string.split(" ")] *)
Fixpoint split (separator : ascii) (s : string) : list string :=
  match s with
  | EmptyString => [EmptyString]
  | String c rest =>
      if Ascii.eqb c separator then EmptyString :: split separator rest
      else
        match split separator rest with
        | part :: parts => String c part :: parts
        | [] => [String c EmptyString]
        end
  end.

(** [parseInt(s)] without a radix: leading white space is skipped (the ASCII
    white space characters here), then an optional sign, then [0x] selects
    radix 16, then the longest prefix of digits is read; [None] is NaN.
    [parseInt(undefined)] is NaN. *)
Definition isWhiteSpace (c : ascii) : bool :=
  let n := nat_of_ascii c in
  ((9 <=? n)%nat && (n <=? 13)%nat) || (n =? 32)%nat.

Fixpoint trimStart (s : string) : string :=
  match s with
  | String c rest => if isWhiteSpace c then trimStart rest else s
  | EmptyString => s
  end.

Definition digitValue (c : ascii) : option Z :=
  let n := Z.of_nat (nat_of_ascii c) in
  if (48 <=? n)%Z && (n <=? 57)%Z then Some (n - 48)%Z
  else if (97 <=? n)%Z && (n <=? 122)%Z then Some (n - 87)%Z
  else if (65 <=? n)%Z && (n <=? 90)%Z then Some (n - 55)%Z
  else None.

Fixpoint digits (radix : Z) (s : string) (value : option Z) : option Z :=
  match s with
  | String c rest =>
      match digitValue c with
      | Some d =>
          if (d <? radix)%Z
          then digits radix rest (Some (default 0 value * radix + d)%Z)
          else value
      | None => value
      end
  | EmptyString => value
  end.

Definition parseInt (s : option string) : option Z :=
  match s with
  | None => None
  | Some s =>
      let s := trimStart s in
      let '(sign, s) :=
        match s with
        | String "-" rest => ((-1)%Z, rest)
        | String "+" rest => (1%Z, rest)
        | _ => (1%Z, s)
        end in
      let '(radix, s) :=
        match s with
        | String "0" (String "x" rest) => (16%Z, rest)
        | String "0" (String "X" rest) => (16%Z, rest)
        | _ => (10%Z, s)
        end in
      (fun n => sign * n)%Z <$> digits radix s None
  end.

(** The table [months] of [parseFormattedDate]. *)
Definition months : gmap string Z :=
  list_to_map
    [ ("Jan", 0); ("Feb", 1); ("Mar", 2); ("Apr", 3); ("May", 4); ("Jun", 5);
      ("Jul", 6); ("Aug", 7); ("Sep", 8); ("Oct", 9); ("Nov", 10); ("Dec", 11) ]%Z.

(** [new Date(year, monthIndex, day)]: the day number of the language
    standard ([DayFromYear], [MakeDay]), at local midnight, clipped to the
    range of time values; a NaN argument gives an invalid date, and so does a
    month that is not in the table (whatever [months[month]] is then, it is
    no number). *)
Definition DayFromYear (y : Z) : Z :=
  (365 * (y - 1970) + (y - 1969) `div` 4 - (y - 1901) `div` 100
   + (y - 1601) `div` 400)%Z.

Definition InLeapYear (y : Z) : bool :=
  ((y `mod` 4 =? 0)%Z && negb (y `mod` 100 =? 0)%Z) || (y `mod` 400 =? 0)%Z.

Definition daysBeforeMonth (leap : bool) (m : Z) : Z :=
  (nth (Z.to_nat m) [0; 31; 59; 90; 120; 151; 181; 212; 243; 273; 304; 334] 0
   + if leap && (2 <=? m) then 1 else 0)%Z.

Definition MakeDay (year month date : Z) : Day :=
  let ym := (year + month `div` 12)%Z in
  let mn := (month `mod` 12)%Z in
  (DayFromYear ym + daysBeforeMonth (InLeapYear ym) mn + date - 1)%Z.

Definition TimeClip (time : Z) : Date :=
  if (Z.abs time <=? 8640000000000000)%Z then Some time else None.

Definition newDate (year month day : option Z) : Date :=
  y ← year; m ← month; d ← day;
  let yr := if (0 <=? y)%Z && (y <=? 99)%Z then (1900 + y)%Z else y in
  TimeClip (MakeDay yr m d * msPerDay)%Z.

Definition parseFormattedDate (formattedDate : string) : Date :=
  let parts := split " " formattedDate in
  let month := parts !! 0%nat in
  let day := parseInt (parts !! 1%nat) in
  let year := parseInt (parts !! 2%nat) in
  let monthNumber := month ≫= (fun month => months !! month) in
  newDate year monthNumber day.

(** [date.toDateString()]: the text names the local calendar day of the time
    value and nothing else, so two such texts are equal exactly when the days
    are; an invalid date gives "Invalid Date". *)
Inductive DateString :=
  | InvalidDate
  | OnDay (day : Day).

#[export] Instance DateString_eq_dec : EqDecision DateString.
Proof. solve_decision. Defined.

Definition toDateString (date : Date) : DateString :=
  match date with
  | Some time => OnDay (time `div` msPerDay)%Z
  | None => InvalidDate
  end.

(** [a > b], [a < b], [a <= b] on dates: comparisons of the time values,
    false when one is NaN. *)
Definition Date_gt (a b : Date) : bool :=
  match a, b with Some x, Some y => (x >? y)%Z | _, _ => false end.
Definition Date_lt (a b : Date) : bool :=
  match a, b with Some x, Some y => (x <? y)%Z | _, _ => false end.
Definition Date_le (a b : Date) : bool :=
  match a, b with Some x, Some y => (x <=? y)%Z | _, _ => false end.

(** What the card shows under "Your next TASK / PROJECT is due". *)
Inductive DueText :=
  | TODAY
  | DateText (text : DateString)
  | NoUpcomingDueDate.

(** The selection is written twice in the page, once over
    [projectsData.user.projects] and once over [projectsData.user.tasks]; the
    two copies differ in the record type only.  [today] is [new Date()], a
    valid date. *)
Section DueDate.
Context {R : Type}.
Variable dateDue : R → string.
Variable today : Z.

(** [parseFormattedDate(r.dateDue).toDateString() === today.toDateString()] *)
Definition isDueToday (r : R) : bool :=
  bool_decide (toDateString (parseFormattedDate (dateDue r)) = toDateString (Some today)).

(** [records.some(...)] *)
Definition hasDueDateToday (records : list R) : bool :=
  existsb isDueToday records.

(** The callback of [records.reduce(..., null)]. *)
Definition closestStep (closest : option R) (current : R) : option R :=
  let currentDueDate := parseFormattedDate (dateDue current) in
  if isDueToday current then Some current
  else
    match closest with
    | None => Some current
    | Some closestRecord =>
        let closestDueDate := parseFormattedDate (dateDue closestRecord) in
        let isCurrentClosest :=
          Date_gt currentDueDate (Some today)
          && (Date_lt currentDueDate closestDueDate
              || Date_le closestDueDate (Some today)) in
        if isCurrentClosest then Some current else Some closestRecord
    end.

Definition closestDueDate (records : list R) : option R :=
  foldl closestStep None records.

(** [hasDueDateToday ? records.find(...) : closestDueDate] *)
Definition recordToReturn (records : list R) : option R :=
  if hasDueDateToday records then find isDueToday records
  else closestDueDate records.

(** The conditional in the card: "TODAY", the date string, or
    "No upcoming due date". *)
Definition dueText (r : option R) : DueText :=
  match r with
  | Some r =>
      if isDueToday r then TODAY
      else DateText (toDateString (parseFormattedDate (dateDue r)))
  | None => NoUpcomingDueDate
  end.

(** A record whose due-date text gives a valid date. *)
Definition parses (r : R) : Prop :=
  is_Some (parseFormattedDate (dateDue r)).

(** Specification vocabulary.  [day r] is the calendar day the due date of
    [r] denotes; [today]'s day is [todayDay].  A record is upcoming when its
    due day lies strictly after today's, and [r] is the first-encountered
    earliest upcoming record of a list. *)
Variable day : R → Day.

Definition dueOn (r : R) : Prop :=
  parseFormattedDate (dateDue r) = Some (day r * msPerDay)%Z.

Definition todayDay : Day := (today `div` msPerDay)%Z.

Definition upcoming (r : R) : Prop :=
  (todayDay < day r)%Z.

Definition firstEarliestUpcoming (r : R) (records : list R) : Prop :=
  ∃ before after,
    records = before ++ r :: after
    ∧ upcoming r
    ∧ (∀ r', r' ∈ before → upcoming r' → (day r < day r')%Z)
    ∧ (∀ r', r' ∈ after → upcoming r' → (day r ≤ day r')%Z).

(** What the accumulator of the reduce is after a prefix without a record
    due today: nothing for the empty prefix, the first-encountered earliest
    upcoming record if there is an upcoming one, and otherwise the first
    record of the prefix. *)
Definition closestInv (records : list R) (closest : option R) : Prop :=
  match closest with
  | None => records = []
  | Some r =>
      firstEarliestUpcoming r records
      ∨ (¬ upcoming r
         ∧ head records = Some r
         ∧ ∀ r', r' ∈ records → ¬ upcoming r')
  end.
End DueDate.

Definition closestDueDateProject (today : Z) (projects : list Project) :=
  closestDueDate project_dateDue today projects.

Definition projectToReturn (today : Z) (projects : list Project) :=
  recordToReturn project_dateDue today projects.

Definition closestDueDateTask (today : Z) (tasks : list Task) :=
  closestDueDate task_dateDue today tasks.

Definition taskToReturn (today : Z) (tasks : list Task) :=
  recordToReturn task_dateDue today tasks.

Definition projectDueText (today : Z) (projects : list Project) : DueText :=
  dueText project_dateDue today (projectToReturn today projects).

Definition taskDueText (today : Z) (tasks : list Task) : DueText :=
  dueText task_dateDue today (taskToReturn today tasks).

(** The calendar day a due-date text denotes (day 0 for an invalid one). *)
Definition dayOfText (text : string) : Day :=
  match toDateString (parseFormattedDate text) with
  | OnDay d => d
  | InvalidDate => 0%Z
  end.

(** ** Records without a due date

    [formattedDate.split(" ")] reads a property of its argument, so
    [parseFormattedDate] throws a [TypeError] on a record whose [dateDue] is
    [null].  A record of the query result is a record with its due-date
    text, or one without ([dateDue: null]), of which the page reads the
    status only.  In the functions below [None] is that throw; they are the
    ones of the section above with the throw passed on, in the order the
    page evaluates them. *)
Inductive Fetched (R : Type) :=
  | Dated (record : R)
  | Undated (status : Status).
Arguments Dated {R} _.
Arguments Undated {R} _.

Definition fetchedStatus {R} (status : R → Status) (r : Fetched R) : Status :=
  match r with
  | Dated record => status record
  | Undated status => status
  end.

Section Fetched.
Context {R : Type}.
Variable dateDue : R → string.
Variable today : Z.

(** [parseFormattedDate(r.dateDue)] *)
Definition parseDueDate (r : Fetched R) : option Date :=
  match r with
  | Dated record => Some (parseFormattedDate (dateDue record))
  | Undated _ => None
  end.

Definition isDueTodayOrThrow (r : Fetched R) : option bool :=
  dueDate ← parseDueDate r;
  Some (bool_decide (toDateString dueDate = toDateString (Some today))).

(** [records.some(...)]: the callback runs on the records up to the first
    one it accepts. *)
Fixpoint someOrThrow (records : list (Fetched R)) : option bool :=
  match records with
  | [] => Some false
  | r :: records =>
      dueToday ← isDueTodayOrThrow r;
      if dueToday : bool then Some true else someOrThrow records
  end.

(** [records.find(...)] *)
Fixpoint findOrThrow (records : list (Fetched R)) : option (option (Fetched R)) :=
  match records with
  | [] => Some None
  | r :: records =>
      dueToday ← isDueTodayOrThrow r;
      if dueToday : bool then Some (Some r) else findOrThrow records
  end.

(** The callback of [records.reduce(..., null)]: the due date of the
    current record is parsed first, on every call. *)
Definition closestStepOrThrow (closest : option (Fetched R)) (current : Fetched R)
  : option (option (Fetched R)) :=
  currentDueDate ← parseDueDate current;
  if bool_decide (toDateString currentDueDate = toDateString (Some today))
  then Some (Some current)
  else
    match closest with
    | None => Some (Some current)
    | Some closestRecord =>
        closestDate ← parseDueDate closestRecord;
        let isCurrentClosest :=
          Date_gt currentDueDate (Some today)
          && (Date_lt currentDueDate closestDate
              || Date_le closestDate (Some today)) in
        Some (if isCurrentClosest then Some current else Some closestRecord)
    end.

Definition closestDueDateOrThrow (records : list (Fetched R))
  : option (option (Fetched R)) :=
  foldl (fun closest current => closest ← closest; closestStepOrThrow closest current)
    (Some None) records.

(** [hasDueDateToday], then the reduce, then
    [hasDueDateToday ? records.find(...) : closestDueDate]. *)
Definition recordToReturnOrThrow (records : list (Fetched R))
  : option (option (Fetched R)) :=
  dueToday ← someOrThrow records;
  closest ← closestDueDateOrThrow records;
  if dueToday : bool then findOrThrow records else Some closest.

(** The conditional in the card. *)
Definition dueTextOrThrow (r : option (Fetched R)) : option DueText :=
  match r with
  | Some r =>
      dueDate ← parseDueDate r;
      Some (if bool_decide (toDateString dueDate = toDateString (Some today))
            then TODAY else DateText (toDateString dueDate))
  | None => Some NoUpcomingDueDate
  end.
End Fetched.

(** ** The page component *)

(** What [useQuery] hands to the component, and the data of the two queries:
    a field the server left out is [null]. *)
Record QueryResult (A : Type) := mkQueryResult {
  loading : bool;
  error : bool;
  data : option A
}.
Arguments mkQueryResult {A} _ _ _.
Arguments loading {A} _.
Arguments error {A} _.
Arguments data {A} _.

Record Me := mkMe {
  firstName : string
}.

Record MeData := mkMeData {
  me : option Me
}.

Record UserData := mkUserData {
  user_projects : option (list (Fetched Project));
  user_tasks : option (list (Fetched Task))
}.

Record ProjectsData := mkProjectsData {
  user : option UserData
}.

(** The values the dashboard puts on the screen. *)
Record Dashboard := mkDashboard {
  welcomeName : string;
  nextTaskDue : DueText;
  nextProjectDue : DueText;
  projectChart : list ChartDatum;
  totalProjects : nat;
  taskChart : list ChartDatum;
  totalTasks : nat;
  tasksToComplete : nat;
  pluralSuffix : string;
  gaugeValue : nat;
  gaugeValueMax : nat
}.

(** What the component renders: one of the three early returns, the
    dashboard, or nothing because a property of [null] was read. *)
Inductive View :=
  | LoadingView
  | ErrorFetchingView
  | NoUserDataView
  | TypeErrorThrown
  | DashboardView (dashboard : Dashboard).

(** The body of the component after the early returns, in the order of the
    page: the tallies ([projectsData.user.tasks.reduce] reads a property of
    the task list), the due dates of the projects and of the tasks, and the
    markup, which reads [meData.me.firstName] and parses the due dates of
    the records selected.  [None] is a [TypeError]. *)
Definition render (today : Z) (meData : MeData) (userData : UserData)
    (projects : list (Fetched Project)) : option Dashboard :=
  let projectStatusCounts :=
    tally (map (fun project => status_key (fetchedStatus projectStatus project))
             projects) in
  tasks ← user_tasks userData;
  let taskStatusCounts :=
    tally (map (fun task => status_key (fetchedStatus taskStatus task)) tasks) in
  let incompleteTasksCount := incompleteCount taskStatusCounts in
  let completedTasksCount := default 0%nat (taskStatusCounts !! "Completed") in
  projectToReturn ← recordToReturnOrThrow project_dateDue today projects;
  taskToReturn ← recordToReturnOrThrow task_dateDue today tasks;
  me ← me meData;
  nextTaskDue ← dueTextOrThrow task_dateDue today taskToReturn;
  nextProjectDue ← dueTextOrThrow project_dateDue today projectToReturn;
  Some {| welcomeName := firstName me;
          nextTaskDue := nextTaskDue;
          nextProjectDue := nextProjectDue;
          projectChart := chartData projectStatusCounts;
          totalProjects := length projects;
          taskChart := chartData taskStatusCounts;
          totalTasks := length tasks;
          tasksToComplete := incompleteTasksCount;
          pluralSuffix := if (incompleteTasksCount =? 1)%nat then "" else "s";
          gaugeValue := completedTasksCount;
          gaugeValueMax := length tasks |}.

Definition MyOverview (today : Z) (meQuery : QueryResult MeData)
    (projectsQuery : QueryResult ProjectsData) : View :=
  if loading meQuery || loading projectsQuery then LoadingView
  else if error meQuery || error projectsQuery then ErrorFetchingView
  else
    match data meQuery, data projectsQuery with
    | Some meData, Some projectsData =>
        match user projectsData with
        | Some userData =>
            match user_projects userData with
            | Some projects =>
                match render today meData userData projects with
                | Some dashboard => DashboardView dashboard
                | None => TypeErrorThrown
                end
            | None => NoUserDataView
            end
        | None => NoUserDataView
        end
    | _, _ => NoUserDataView
    end.

End Overview.

(** * The document store and the resolver monad *)

Module Store.

(** [_id] values.  The driver generates them; the store keeps the next one to
    hand out, so a generated identifier was never handed out before. *)
Definition ObjectId := nat.

(** Documents.  The scalar paths of a schema (names, e-mail, password hash,
    status, due date, ...) are kept as a JS object from path to value; the
    reference paths the resolvers read and write are fields of their own. *)

(** Modelled from the spec: the schemas of [../models] are not among the
    sources.  A user holds its identity fields, a list of project
    references, a list of task references and one team reference. *)
Record User := mkUser {
  user_fields : gmap string string;
  user_projects : list ObjectId;
  user_tasks : list ObjectId;
  user_team : option ObjectId
}.

(** Modelled from the spec: a team holds a list of member references and a
    list of project references. *)
Record Team := mkTeam {
  team_fields : gmap string string;
  members : list ObjectId;
  team_projects : list ObjectId
}.

(** Modelled from the spec: a project holds its status and due date among
    the scalar paths, a list of task references and its team association
    (the path [team] in one resolver file, [teams] in the other).  An entry
    of the team array is a reference or [null]: [team: [teamId]] with an
    undefined [teamId] is stored as the one-element array [[null]]. *)
Record Project := mkProject {
  project_fields : gmap string string;
  project_tasks : list ObjectId;
  project_team : list (option ObjectId)
}.

(** Modelled from the spec: a task holds its status and due date among the
    scalar paths and a single [assignedUser] reference. *)
Record Task := mkTask {
  task_fields : gmap string string;
  assignedUser : option ObjectId
}.

Record DB := mkDB {
  users : gmap ObjectId User;
  teams : gmap ObjectId Team;
  projects : gmap ObjectId Project;
  tasks : gmap ObjectId Task;
  nextId : ObjectId
}.

Definition set_users (f : gmap ObjectId User → gmap ObjectId User) (db : DB) : DB :=
  mkDB (f (users db)) (teams db) (projects db) (tasks db) (nextId db).
Definition set_teams (f : gmap ObjectId Team → gmap ObjectId Team) (db : DB) : DB :=
  mkDB (users db) (f (teams db)) (projects db) (tasks db) (nextId db).
Definition set_projects (f : gmap ObjectId Project → gmap ObjectId Project) (db : DB) : DB :=
  mkDB (users db) (teams db) (f (projects db)) (tasks db) (nextId db).
Definition set_tasks (f : gmap ObjectId Task → gmap ObjectId Task) (db : DB) : DB :=
  mkDB (users db) (teams db) (projects db) (f (tasks db)) (nextId db).
Definition bump (db : DB) : DB :=
  mkDB (users db) (teams db) (projects db) (tasks db) (S (nextId db)).

(** What a resolver throws: the sentinel exported by [utils/auth], an
    [Error] with its message, or the [TypeError] of a property read on
    [null]. *)
Inductive Thrown :=
  | AuthenticationError
  | Error (message : string)
  | TypeError (message : string).

Inductive Outcome (A : Type) :=
  | Returned (a : A)
  | Threw (e : Thrown).
Arguments Returned {A} a.
Arguments Threw {A} e.

(** An [async] resolver body: it runs against the store and either returns
    or throws; writes made before a throw stay in the store.  Connection and
    validation failures of the store itself are outside the model: a model
    operation always completes. *)
Definition Async (A : Type) : Type := DB → Outcome A * DB.

#[export] Instance Async_ret : MRet Async :=
  fun A a db => (Returned a, db).

#[export] Instance Async_bind : MBind Async :=
  fun A B k m db =>
    match m db with
    | (Returned a, db') => k a db'
    | (Threw e, db') => (Threw e, db')
    end.

Definition throw {A} (e : Thrown) : Async A :=
  fun db => (Threw e, db).

(** [try { body } catch (error) { handler }] *)
Definition try_catch {A} (body : Async A) (handler : Thrown → Async A) : Async A :=
  fun db =>
    match body db with
    | (Returned a, db') => (Returned a, db')
    | (Threw e, db') => handler e db'
    end.

(** [for (const x of xs) { body }] *)
Fixpoint for_of {A} (xs : list A) (body : A → Async unit) : Async unit :=
  match xs with
  | [] => mret ()
  | x :: xs' => _ ← body x; for_of xs' body
  end.

Definition get {A} (read : DB → A) : Async A :=
  fun db => (Returned (read db), db).

Definition modify (write : DB → DB) : Async unit :=
  fun db => (Returned (), write db).

(** ** Model operations *)

(** [Model.create(doc)]: the document is stored under a newly generated
    [_id]. *)
Definition generateId : Async ObjectId :=
  fun db => (Returned (nextId db), bump db).

Definition Task_create (doc : Task) : Async (ObjectId * Task) :=
  id ← generateId;
  _ ← modify (set_tasks (insert id doc));
  mret (id, doc).

Definition Project_create (doc : Project) : Async (ObjectId * Project) :=
  id ← generateId;
  _ ← modify (set_projects (insert id doc));
  mret (id, doc).

(** [Model.findById(id)] *)
Definition User_findById (id : ObjectId) : Async (option User) :=
  get (fun db => users db !! id).
Definition Team_findById (id : ObjectId) : Async (option Team) :=
  get (fun db => teams db !! id).
Definition Project_findById (id : ObjectId) : Async (option Project) :=
  get (fun db => projects db !! id).
Definition Task_findById (id : ObjectId) : Async (option Task) :=
  get (fun db => tasks db !! id).

(** [Model.find({ _id: { $in: ids } })] *)
Definition find_in {A} (ids : list ObjectId) (coll : gmap ObjectId A)
  : list (ObjectId * A) :=
  filter (fun doc => doc.1 ∈ ids) (map_to_list coll).

(** [doc.save()] *)
Definition User_save (id : ObjectId) (doc : User) : Async unit :=
  modify (set_users (insert id doc)).
Definition Team_save (id : ObjectId) (doc : Team) : Async unit :=
  modify (set_teams (insert id doc)).
Definition Project_save (id : ObjectId) (doc : Project) : Async unit :=
  modify (set_projects (insert id doc)).
Definition Task_save (id : ObjectId) (doc : Task) : Async unit :=
  modify (set_tasks (insert id doc)).

(** [Model.findOneAndDelete({ _id: id })]: the removed document, or [null]. *)
Definition User_findOneAndDelete (id : ObjectId) : Async (option User) :=
  doc ← User_findById id;
  _ ← modify (set_users (delete id));
  mret doc.
Definition Project_findOneAndDelete (id : ObjectId) : Async (option Project) :=
  doc ← Project_findById id;
  _ ← modify (set_projects (delete id));
  mret doc.
Definition Task_findOneAndDelete (id : ObjectId) : Async (option Task) :=
  doc ← Task_findById id;
  _ ← modify (set_tasks (delete id));
  mret doc.

(** [Model.findOneAndUpdate({ _id: id }, update, { new })]: the matched
    document is replaced by its updated version; the result is the document
    after the update with [new: true], the document as it was found
    otherwise, and [null] when nothing matches. *)
Definition User_findOneAndUpdate (id : ObjectId) (update : User → User) (new : bool)
  : Async (option User) :=
  found ← User_findById id;
  _ ← modify (set_users (alter update id));
  mret (if new then update <$> found else found).

Definition Task_findOneAndUpdate (id : ObjectId) (update : Task → Task) (new : bool)
  : Async (option Task) :=
  found ← Task_findById id;
  _ ← modify (set_tasks (alter update id));
  mret (if new then update <$> found else found).

(** [query.populate(path)] on a list of references: the documents that
    exist, in the order of the references. *)
Definition populate {A} (coll : gmap ObjectId A) (refs : list ObjectId)
  : list (ObjectId * A) :=
  omap (fun id => (fun doc => (id, doc)) <$> coll !! id) refs.

(** The references of an array path that may hold [null]: populating skips
    the [null] entries. *)
Definition references (refs : list (option ObjectId)) : list ObjectId :=
  omap (fun ref => ref) refs.

Definition populate_one {A} (coll : gmap ObjectId A) (ref : option ObjectId)
  : option (ObjectId * A) :=
  id ← ref; doc ← coll !! id; Some (id, doc).

(** [User.findOne({ email })]: the first user, in the store's order, whose
    e-mail is the given one. *)
Definition first_with_email (email : string) (db : DB) : option (ObjectId * User) :=
  head (filter (fun doc => user_fields doc.2 !! "email" = Some email)
          (map_to_list (users db))).

Definition User_findOne_email (email : string) : Async (option (ObjectId * User)) :=
  get (first_with_email email).

(** [User.findById(id)] where [id] may be [undefined]: no document then. *)
Definition User_findById_opt (id : option ObjectId) : Async (option (ObjectId * User)) :=
  get (fun db => populate_one (users db) id).

(** ** Inputs of the mutations *)

(** Modelled from the spec: the schema's input types are not among the
    sources; the fields are those the resolvers read.  [UserInput]: scalar
    paths and the [teamId] of [addUser]. *)
Record UserInput := mkUserInput {
  userInput_teamId : option ObjectId;
  userInput_fields : gmap string string
}.

(** Modelled from the spec: [TaskInput] has scalar paths, the
    [assignedUserId] that [addTask] reads, and - when a patch carries the
    assignee path itself - [assignedUser], the key the spread
    [{ ...input, assignedUser: assignedUserId }] overrides.  That key is
    absent ([None]), [null] ([Some None]) or a user ([Some (Some user)]). *)
Record TaskInput := mkTaskInput {
  taskInput_fields : gmap string string;
  assignedUserId : option ObjectId;
  taskInput_assignedUser : option (option ObjectId)
}.

(** The object given to [$set] on a task: scalar paths and [assignedUser],
    which is absent (an [undefined] value is dropped from the update),
    [null] or a user. *)
Record TaskSet := mkTaskSet {
  set_fields : gmap string string;
  set_assignedUser : option (option ObjectId)
}.

Definition Task_set (update : TaskSet) (doc : Task) : Task :=
  {| task_fields := set_fields update ∪ task_fields doc;
     assignedUser :=
       match set_assignedUser update with
       | Some value => value
       | None => assignedUser doc
       end |}.

Definition User_set (fields : gmap string string) (doc : User) : User :=
  {| user_fields := fields ∪ user_fields doc;
     user_projects := user_projects doc;
     user_tasks := user_tasks doc;
     user_team := user_team doc |}.

(** [array.push(x)] on the reference arrays. *)
Definition push_task_to_project (task : ObjectId) (doc : Project) : Project :=
  {| project_fields := project_fields doc;
     project_tasks := project_tasks doc ++ [task];
     project_team := project_team doc |}.

Definition push_task_to_user (task : ObjectId) (doc : User) : User :=
  {| user_fields := user_fields doc;
     user_projects := user_projects doc;
     user_tasks := user_tasks doc ++ [task];
     user_team := user_team doc |}.

Definition push_project_to_user (project : ObjectId) (doc : User) : User :=
  {| user_fields := user_fields doc;
     user_projects := user_projects doc ++ [project];
     user_tasks := user_tasks doc;
     user_team := user_team doc |}.

Definition push_project_to_team (project : ObjectId) (doc : Team) : Team :=
  {| team_fields := team_fields doc;
     members := members doc;
     team_projects := team_projects doc ++ [project] |}.

Definition Task_of_input (input : TaskInput) : Task :=
  {| task_fields := taskInput_fields input;
     assignedUser := mjoin (taskInput_assignedUser input) |}.

Definition set_task_assignedUser (user : ObjectId) (doc : Task) : Task :=
  {| task_fields := task_fields doc; assignedUser := Some user |}.

(** The result of [login]: [{ user, token }]. *)
Record Auth (U : Type) := mkAuth {
  auth_user : U;
  auth_token : string
}.
Arguments mkAuth {U} _ _.
Arguments auth_user {U} _.
Arguments auth_token {U} _.

(** How often an identifier occurs in a reference array. *)
Definition occurrences (id : ObjectId) (refs : list ObjectId) : nat :=
  length (filter (fun ref => ref = id) refs).

(** The users collection after each fetched document was saved updated. *)
Definition saved (update : User → User) (docs : list (ObjectId * User))
    (m : gmap ObjectId User) : gmap ObjectId User :=
  foldl (fun m doc => <[doc.1 := update doc.2]> m) m docs.

(** Task identifiers in the store are generated ones: every task, and every
    task reference on a project or on a user, lies below the next identifier
    the store hands out. *)
Record generated (db : DB) : Prop := mkGenerated {
  generated_tasks :
    ∀ id, is_Some (tasks db !! id) → id < nextId db;
  generated_project_tasks :
    ∀ id project, projects db !! id = Some project →
                  Forall (fun ref => ref < nextId db) (project_tasks project);
  generated_user_tasks :
    ∀ id user, users db !! id = Some user →
               Forall (fun ref => ref < nextId db) (user_tasks user)
}.

(** [error.message] *)
Definition message (sentinelMessage : string) (e : Thrown) : string :=
  match e with
  | AuthenticationError => sentinelMessage
  | Error m => m
  | TypeError m => m
  end.

(** The request context built by the authentication middleware: the user in
    the bearer token, if any. *)
Record Context := mkContext {
  context_user : option ObjectId
}.

(** The result of [addTask]: [{ ...task.toObject(), assignedUser }]. *)
Record TaskWithAssignee (U : Type) := mkTaskWithAssignee {
  result_id : ObjectId;
  result_task : Task;
  result_assignedUser : option U
}.
Arguments mkTaskWithAssignee {U} _ _ _.
Arguments result_id {U} _.
Arguments result_task {U} _.
Arguments result_assignedUser {U} _.

(** ** Further model operations, used by [addUser] and [updateProject] *)

(** [User.create(userData)]: a new user with the given scalar paths and no
    references.  What the model's save hooks do to the scalar paths (the
    password) is not among the sources; the paths are stored as given. *)
Definition User_create (fields : gmap string string) : Async (ObjectId * User) :=
  id ← generateId;
  let doc := {| user_fields := fields; user_projects := [];
                user_tasks := []; user_team := None |} in
  _ ← modify (set_users (insert id doc));
  mret (id, doc).

Definition set_user_team (team : ObjectId) (doc : User) : User :=
  {| user_fields := user_fields doc;
     user_projects := user_projects doc;
     user_tasks := user_tasks doc;
     user_team := Some team |}.

Definition push_member (user : ObjectId) (doc : Team) : Team :=
  {| team_fields := team_fields doc;
     members := members doc ++ [user];
     team_projects := team_projects doc |}.

Definition Project_findOneAndUpdate (id : ObjectId) (update : Project → Project)
    (new : bool) : Async (option Project) :=
  found ← Project_findById id;
  _ ← modify (set_projects (alter update id));
  mret (if new then update <$> found else found).

(** [$set] of scalar paths and, when given, of the team path. *)
Definition Project_set (fields : gmap string string)
    (team : option (list (option ObjectId)))
    (doc : Project) : Project :=
  {| project_fields := fields ∪ project_fields doc;
     project_tasks := project_tasks doc;
     project_team := default (project_team doc) team |}.

End Store.

(** * The resolvers of [src/unnamed/part_000]

    The file with the [me] query, the session check in [tasks], password
    re-hashing in [updateUser] and the back-references written by
    [addProject] and [addTask]. *)

Module Part000.
Import Store.

(** Modelled from the spec: [ProjectInput] of this file has scalar paths and
    one [teamId]. *)
Record ProjectInput := mkProjectInput {
  projectInput_fields : gmap string string;
  teamId : option ObjectId
}.

Section Resolvers.
(** [utils/auth], the [User] model's [isCorrectPassword] and [bcrypt] are
    not among the sources: the salted-hash comparison, the token signer,
    the hash and the sentinel's message are taken as given. *)
Variable isCorrectPassword : User → string → bool.
Variable signToken : ObjectId → User → string.
Variable bcrypt_hash : string → nat → string.
Variable sentinelMessage : string.

(** [Query.tasks].  Whatever the [throw] in the [try] block raises - the
    sentinel if [AuthenticationError] is a class, a [TypeError] if it is an
    error object - the [catch] replaces it. *)
Definition tasks (context : Context)
  : Async (list (ObjectId * Task * option (ObjectId * User))) :=
  try_catch
    (user ← match context_user context with
            | None => throw AuthenticationError
            | Some user => mret user
            end;
     found ← get (fun db =>
       filter (fun doc => assignedUser doc.2 = Some user)
         (map_to_list (Store.tasks db)));
     get (fun db =>
       (fun doc => (doc, populate_one (users db) (assignedUser doc.2))) <$> found))
    (fun error => throw (Error "Failed to fetch tasks")).

Definition login (email password : string) : Async (Auth (ObjectId * User)) :=
  user ← User_findOne_email email;
  match user with
  | None => throw AuthenticationError
  | Some (id, user) =>
      if isCorrectPassword user password
      then mret (mkAuth (id, user) (signToken id user))
      else throw AuthenticationError
  end.

(** [if (input.password) input.password = await bcrypt.hash(input.password, 10)] *)
Definition rehash (fields : gmap string string) : gmap string string :=
  match fields !! "password" with
  | Some password =>
      if decide (password = "") then fields
      else <["password" := bcrypt_hash password 10]> fields
  | None => fields
  end.

Definition updateUser (userId : ObjectId) (input : UserInput) : Async (option User) :=
  try_catch
    (User_findOneAndUpdate userId (User_set (rehash (userInput_fields input))) false)
    (fun error => throw (Error "Error updating user")).

Definition removeUser (userId : ObjectId) : Async (option User) :=
  User_findOneAndDelete userId.

(** [team: [teamId]] is a one-element array, [[null]] when [teamId] is
    undefined; [User.find] returns an array, so the [if (!users)] throw
    after it is never taken. *)
Definition addProject (input : ProjectInput) : Async (ObjectId * Project) :=
  try_catch
    ('(projectId, project) ← Project_create
         {| project_fields := projectInput_fields input;
            project_tasks := [];
            project_team := [teamId input] |};
     _ ← match teamId input with
         | Some teamId =>
             team ← Team_findById teamId;
             match team with
             | None => throw (Error "Team not found")
             | Some team =>
                 _ ← Team_save teamId (push_project_to_team projectId team);
                 users ← get (fun db => find_in (members team) (Store.users db));
                 for_of users (fun '(userId, user) =>
                   User_save userId (push_project_to_user projectId user))
             end
         | None => mret ()
         end;
     mret (projectId, project))
    (fun error =>
       throw (Error ("Failed to create project: " +:+ message sentinelMessage error))).

Definition removeProject (projectId : ObjectId) : Async (option Project) :=
  Project_findOneAndDelete projectId.

Definition addTask (projectId : ObjectId) (input : TaskInput)
  : Async (TaskWithAssignee (ObjectId * User)) :=
  try_catch
    ('(taskId, task) ← Task_create (Task_of_input input);
     project ← Project_findById projectId;
     match project with
     | None => throw (Error "Project not found")
     | Some project =>
         _ ← Project_save projectId (push_task_to_project taskId project);
         assignedUser ← User_findById_opt (assignedUserId input);
         match assignedUser with
         | None => throw (Error "Assigned user not found")
         | Some (userId, user) =>
             let task := set_task_assignedUser userId task in
             _ ← Task_save taskId task;
             let user := push_task_to_user taskId user in
             _ ← User_save userId user;
             mret (mkTaskWithAssignee taskId task (Some (userId, user)))
         end
     end)
    (fun error =>
       throw (Error ("Failed to create task: " +:+ message sentinelMessage error))).

Definition updateTask (taskId : ObjectId) (input : TaskInput) : Async (option Task) :=
  try_catch
    (existingTask ← Task_findById taskId;
     match existingTask with
     | None => throw (Error "Task not found")
     | Some existingTask =>
         let assignedUserId := assignedUser existingTask in
         Task_findOneAndUpdate taskId
           (Task_set {| set_fields := taskInput_fields input;
                        set_assignedUser := Some <$> assignedUserId |})
           true
     end)
    (fun error => throw (Error "Error updating task")).

Definition removeTask (taskId : ObjectId) : Async (option Task) :=
  Task_findOneAndDelete taskId.
End Resolvers.

End Part000.

(** * The resolvers of [src/server/schemas/resolvers.js]

    The file without a session check and without back-references on users
    and teams. *)

Module Resolvers.
Import Store.

(** Modelled from the spec: [ProjectInput] of this file has scalar paths,
    [teamIds] and [taskIds]. *)
Record ProjectInput := mkProjectInput {
  projectInput_fields : gmap string string;
  teamIds : list ObjectId;
  taskIds : list ObjectId
}.

(** A user with [projects], [tasks] and [team] populated. *)
Record PopulatedUser := mkPopulatedUser {
  populated_user : ObjectId * User;
  populated_projects : list (ObjectId * Project);
  populated_tasks : list (ObjectId * Task);
  populated_team : option (ObjectId * Team)
}.

Definition populate_user (db : DB) (user : ObjectId * User) : PopulatedUser :=
  {| populated_user := user;
     populated_projects := populate (projects db) (user_projects user.2);
     populated_tasks := populate (Store.tasks db) (user_tasks user.2);
     populated_team := populate_one (teams db) (user_team user.2) |}.

(** A user with [projects] populated and, inside each, [tasks]. *)
Definition populate_projects_tasks (db : DB) (user : ObjectId * User)
  : ObjectId * User * list (ObjectId * Project * list (ObjectId * Task)) :=
  (user,
   (fun project => (project, populate (Store.tasks db) (project_tasks project.2)))
     <$> populate (projects db) (user_projects user.2)).

Section Resolvers.
Variable isCorrectPassword : User → string → bool.
Variable signToken : ObjectId → User → string.

(** [Query.tasks]: no context, no filter. *)
Definition tasks : Async (list (ObjectId * Task * option (ObjectId * User))) :=
  get (fun db =>
    (fun doc => (doc, populate_one (users db) (assignedUser doc.2)))
      <$> map_to_list (Store.tasks db)).

Definition login (email password : string) : Async (Auth PopulatedUser) :=
  user ← User_findOne_email email;
  match user with
  | None => throw AuthenticationError
  | Some (id, user) =>
      populated ← get (fun db => populate_user db (id, user));
      if isCorrectPassword user password
      then mret (mkAuth populated (signToken id user))
      else throw AuthenticationError
  end.

Definition updateUser (userId : ObjectId) (input : UserInput) : Async (option User) :=
  User_findOneAndUpdate userId (User_set (userInput_fields input)) true.

Definition removeUser (userId : ObjectId) : Async (option User) :=
  User_findOneAndDelete userId.

Definition addProject (input : ProjectInput) : Async (ObjectId * Project) :=
  '(projectId, project) ← Project_create
      {| project_fields := projectInput_fields input;
         project_tasks := [];
         project_team := [] |};
  teams ← get (fun db => find_in (teamIds input) (Store.teams db));
  tasks ← get (fun db => find_in (taskIds input) (Store.tasks db));
  let project :=
    {| project_fields := project_fields project;
       project_tasks := tasks.*1;
       project_team := Some <$> teams.*1 |} in
  _ ← Project_save projectId project;
  mret (projectId, project).

Definition removeProject (projectId : ObjectId) : Async (option Project) :=
  Project_findOneAndDelete projectId.

Definition addTask (projectId : ObjectId) (input : TaskInput)
  : Async (TaskWithAssignee
             (ObjectId * User * list (ObjectId * Project * list (ObjectId * Task)))) :=
  '(taskId, task) ← Task_create (Task_of_input input);
  project ← Project_findById projectId;
  match project with
  | None => throw (TypeError "Cannot read properties of null (reading 'tasks')")
  | Some project =>
      _ ← Project_save projectId (push_task_to_project taskId project);
      user ← User_findById_opt (assignedUserId input);
      populated ← get (fun db => populate_projects_tasks db <$> user);
      mret (mkTaskWithAssignee taskId task populated)
  end.

Definition updateTask (taskId : ObjectId) (input : TaskInput) : Async (option Task) :=
  Task_findOneAndUpdate taskId
    (Task_set {| set_fields := taskInput_fields input;
                 set_assignedUser := taskInput_assignedUser input |})
    true.

Definition removeTask (taskId : ObjectId) : Async (option Task) :=
  Task_findOneAndDelete taskId.
End Resolvers.

End Resolvers.

(** * The remaining resolvers of [src/unnamed/part_000] *)

Module Part000Rest.
Import Store.

(** The populated shapes of the queries. *)
Definition populate_members (db : DB) (team : ObjectId * Team)
  : ObjectId * Team * list (ObjectId * User) :=
  (team, populate (users db) (members team.2)).

Definition populate_members_tasks (db : DB) (team : ObjectId * Team)
  : ObjectId * Team * list (ObjectId * User * list (ObjectId * Task)) :=
  (team,
   (fun member => (member, populate (tasks db) (user_tasks member.2)))
     <$> populate (users db) (members team.2)).

Definition populate_assignedUser (db : DB) (task : ObjectId * Task)
  : ObjectId * Task * option (ObjectId * User) :=
  (task, populate_one (users db) (assignedUser task.2)).

(** A user with [projects] and [tasks] populated and, in [team], the members
    with their tasks. *)
Record UserDeep := mkUserDeep {
  deep_user : ObjectId * User;
  deep_projects : list (ObjectId * Project);
  deep_tasks : list (ObjectId * Task);
  deep_team : option (ObjectId * Team * list (ObjectId * User * list (ObjectId * Task)))
}.

Definition populate_user_deep (db : DB) (user : ObjectId * User) : UserDeep :=
  {| deep_user := user;
     deep_projects := populate (projects db) (user_projects user.2);
     deep_tasks := populate (tasks db) (user_tasks user.2);
     deep_team := populate_members_tasks db <$> populate_one (teams db) (user_team user.2) |}.

(** A team with [projects] and [members] populated. *)
Record PopulatedTeam := mkPopulatedTeam {
  populated_team : ObjectId * Team;
  populated_team_projects : list (ObjectId * Project);
  populated_members : list (ObjectId * User)
}.

Definition populate_team (db : DB) (team : ObjectId * Team) : PopulatedTeam :=
  {| populated_team := team;
     populated_team_projects := populate (projects db) (team_projects team.2);
     populated_members := populate (users db) (members team.2) |}.

(** A project with [team] populated, members inside, and [tasks] populated,
    the assigned user inside. *)
Record PopulatedProject := mkPopulatedProject {
  populated_project : ObjectId * Project;
  populated_project_team : list (ObjectId * Team * list (ObjectId * User));
  populated_project_tasks : list (ObjectId * Task * option (ObjectId * User))
}.

Definition populate_project (db : DB) (project : ObjectId * Project) : PopulatedProject :=
  {| populated_project := project;
     populated_project_team :=
       populate_members db
         <$> populate (teams db) (references (project_team project.2));
     populated_project_tasks :=
       populate_assignedUser db <$> populate (tasks db) (project_tasks project.2) |}.

Definition find_one {A} (coll : gmap ObjectId A) (id : ObjectId) : option (ObjectId * A) :=
  (fun doc => (id, doc)) <$> coll !! id.

Section Resolvers.
Variable signToken : ObjectId → User → string.

Definition me (context : Context) : Async (option Resolvers.PopulatedUser) :=
  match context_user context with
  | Some id => get (fun db => Resolvers.populate_user db <$> find_one (users db) id)
  | None => throw AuthenticationError
  end.

Definition users : Async (list Resolvers.PopulatedUser) :=
  get (fun db => Resolvers.populate_user db <$> map_to_list (Store.users db)).

Definition user (id : ObjectId) : Async (option UserDeep) :=
  get (fun db => populate_user_deep db <$> find_one (Store.users db) id).

Definition teams : Async (list PopulatedTeam) :=
  get (fun db => populate_team db <$> map_to_list (Store.teams db)).

Definition team (id : ObjectId) : Async (option PopulatedTeam) :=
  get (fun db => populate_team db <$> find_one (Store.teams db) id).

Definition projects : Async (list PopulatedProject) :=
  get (fun db => populate_project db <$> map_to_list (Store.projects db)).

Definition project (id : ObjectId) : Async (option PopulatedProject) :=
  get (fun db => populate_project db <$> find_one (Store.projects db) id).

(** [if (teamId)] is taken when a team identifier is given. *)
Definition addUser (input : UserInput) : Async (Auth (ObjectId * User)) :=
  try_catch
    ('(userId, user) ← User_create (userInput_fields input);
     user ← match userInput_teamId input with
            | Some teamId =>
                team ← Team_findById teamId;
                match team with
                | None => throw (Error "Team not found")
                | Some team =>
                    let user := set_user_team teamId user in
                    _ ← User_save userId user;
                    _ ← Team_save teamId (push_member userId team);
                    mret user
                end
            | None => mret user
            end;
     mret (mkAuth (userId, user) (signToken userId user)))
    (fun error => throw (Error "Failed to add user")).

(** [updateObject]: the input without [teamId], whose value goes to the
    [team] path; the path holds an array, so the value is cast to the
    one-element array.  The result has [team] populated. *)
Definition updateProject (projectId : ObjectId) (input : Part000.ProjectInput)
  : Async (option (Project * list (ObjectId * Team))) :=
  let update :=
    Project_set (Part000.projectInput_fields input)
      ((fun teamId => [Some teamId]) <$> Part000.teamId input) in
  updated ← Project_findOneAndUpdate projectId update true;
  get (fun db =>
    (fun project =>
       (project, populate (Store.teams db) (references (project_team project))))
      <$> updated).
End Resolvers.

End Part000Rest.

(** * The remaining resolvers of [src/server/schemas/resolvers.js] *)

Module ResolversRest.
Import Store.

(** A user with [projects] and [tasks] populated. *)
Definition populate_projects_and_tasks (db : DB) (user : ObjectId * User)
  : ObjectId * User * list (ObjectId * Project) * list (ObjectId * Task) :=
  (user, populate (projects db) (user_projects user.2),
   populate (tasks db) (user_tasks user.2)).

(** A project with [teams] populated, members inside, and [tasks]
    populated. *)
Definition populate_teams_tasks (db : DB) (project : ObjectId * Project)
  : ObjectId * Project * list (ObjectId * Team * list (ObjectId * User))
    * list (ObjectId * Task) :=
  (project,
   Part000Rest.populate_members db
     <$> populate (teams db) (references (project_team project.2)),
   populate (tasks db) (project_tasks project.2)).

Definition users : Async (list Resolvers.PopulatedUser) :=
  get (fun db => Resolvers.populate_user db <$> map_to_list (Store.users db)).

Definition user (id : ObjectId)
  : Async (option (ObjectId * User * list (ObjectId * Project) * list (ObjectId * Task))) :=
  get (fun db =>
    populate_projects_and_tasks db <$> Part000Rest.find_one (Store.users db) id).

Definition teams : Async (list Part000Rest.PopulatedTeam) :=
  get (fun db => Part000Rest.populate_team db <$> map_to_list (Store.teams db)).

Definition team (id : ObjectId) : Async (option (ObjectId * Team * list (ObjectId * User))) :=
  get (fun db =>
    Part000Rest.populate_members db <$> Part000Rest.find_one (Store.teams db) id).

Definition projects
  : Async (list (ObjectId * Project * list (ObjectId * Team * list (ObjectId * User))
                 * list (ObjectId * Task))) :=
  get (fun db => populate_teams_tasks db <$> map_to_list (Store.projects db)).

Definition project (id : ObjectId) : Async (option (ObjectId * Project)) :=
  get (fun db => Part000Rest.find_one (Store.projects db) id).

Definition task (id : ObjectId)
  : Async (option (ObjectId * Task * option (ObjectId * User))) :=
  get (fun db =>
    Part000Rest.populate_assignedUser db <$> Part000Rest.find_one (Store.tasks db) id).

(** [addUser] is not [async]: its [try] encloses only the call that builds
    the promise chain, so a throw inside a [then] callback rejects the
    returned promise and is not seen by the [catch].  The result is
    [{ user }], without a token. *)
Definition addUser (input : UserInput) : Async (ObjectId * User) :=
  '(userId, user) ← User_create (userInput_fields input);
  match userInput_teamId input with
  | Some teamId =>
      team ← Team_findById teamId;
      match team with
      | None => throw (Error "Team not found")
      | Some team =>
          let user := set_user_team teamId user in
          _ ← User_save userId user;
          mret (userId, user)
      end
  | None => mret (userId, user)
  end.

(** [project.set(input)] sets the scalar paths; with a non-empty [teamIds]
    the teams and the tasks found replace [teams] and [tasks]. *)
Definition updateProject (projectId : ObjectId) (input : Resolvers.ProjectInput)
  : Async Project :=
  try_catch
    (project ← Project_findById projectId;
     match project with
     | None => throw (Error "Project not found")
     | Some project =>
         let project :=
           Project_set (Resolvers.projectInput_fields input) None project in
         project ←
           (if bool_decide (Resolvers.teamIds input ≠ [])
            then
              teams ← get (fun db => find_in (Resolvers.teamIds input) (Store.teams db));
              tasks ← get (fun db => find_in (Resolvers.taskIds input) (Store.tasks db));
              mret {| project_fields := project_fields project;
                      project_tasks := tasks.*1;
                      project_team := Some <$> teams.*1 |}
            else mret project);
         _ ← Project_save projectId project;
         mret project
     end)
    (fun error => throw (Error "Failed to update project")).

End ResolversRest.

(** * A small store used in the examples

    Team 1 has the members 2 and 3; project 4 belongs to it; task 5 is
    assigned to user 2; the next identifier is 6. *)

Module Scenario.
Import Store.

Definition ada : User :=
  {| user_fields := {[ "email" := "ada@example.org"; "password" := "hash(lovelace)" ]};
     user_projects := [4];
     user_tasks := [5];
     user_team := Some 1 |}.

Definition grace : User :=
  {| user_fields := {[ "email" := "grace@example.org"; "password" := "hash(hopper)" ]};
     user_projects := [4];
     user_tasks := [];
     user_team := Some 1 |}.

Definition team : Team :=
  {| team_fields := {[ "name" := "Compilers" ]};
     members := [2; 3];
     team_projects := [4] |}.

Definition project : Project :=
  {| project_fields := {[ "projectStatus" := "Pending"; "dateDue" := "Nov 2 2026" ]};
     project_tasks := [5];
     project_team := [Some 1] |}.

Definition task : Task :=
  {| task_fields := {[ "taskStatus" := "Created"; "dateDue" := "Nov 2 2026" ]};
     assignedUser := Some 2 |}.

Definition db : DB :=
  {| users := {[ 2 := ada; 3 := grace ]};
     teams := {[ 1 := team ]};
     projects := {[ 4 := project ]};
     tasks := {[ 5 := task ]};
     nextId := 6 |}.

(** A stand-in for the salted-hash comparison and the token signer. *)
Definition isCorrectPassword (user : User) (password : string) : bool :=
  bool_decide (user_fields user !! "password" = Some ("hash(" +:+ password +:+ ")")).

Definition signToken (id : ObjectId) (user : User) : string :=
  "token for " +:+ default "" (user_fields user !! "email").

Definition bcrypt_hash (password : string) (rounds : nat) : string :=
  "hash(" +:+ password +:+ ")".

Definition newTask : TaskInput :=
  {| taskInput_fields := {[ "taskStatus" := "Created"; "dateDue" := "Nov 9 2026" ]};
     assignedUserId := Some 3;
     taskInput_assignedUser := None |}.

Definition reassign : TaskInput :=
  {| taskInput_fields := {[ "taskStatus" := "InProgress" ]};
     assignedUserId := None;
     taskInput_assignedUser := Some (Some 3) |}.

Definition rename : UserInput :=
  {| userInput_teamId := None;
     userInput_fields := {[ "firstName" := "Augusta"; "password" := "byron" ]} |}.

Definition newProject : Part000.ProjectInput :=
  {| Part000.projectInput_fields := {[ "projectStatus" := "Created" ]};
     Part000.teamId := Some 1 |}.

Definition newProject' : Resolvers.ProjectInput :=
  {| Resolvers.projectInput_fields := {[ "projectStatus" := "Created" ]};
     Resolvers.teamIds := [1];
     Resolvers.taskIds := [] |}.

(** Further inputs: a user joining team 1, a user naming a team that does
    not exist, a task for a user that does not exist, a project for a team
    that does not exist, and project patches. *)
Definition joining : UserInput :=
  {| userInput_teamId := Some 1;
     userInput_fields := {[ "email" := "edsger@example.org"; "firstName" := "Edsger" ]} |}.

Definition joiningNowhere : UserInput :=
  {| userInput_teamId := Some 9;
     userInput_fields := {[ "email" := "edsger@example.org"; "firstName" := "Edsger" ]} |}.

Definition taskForNobody : TaskInput :=
  {| taskInput_fields := {[ "taskStatus" := "Created"; "dateDue" := "Nov 9 2026" ]};
     assignedUserId := Some 7;
     taskInput_assignedUser := None |}.

Definition projectWithoutTeam : Part000.ProjectInput :=
  {| Part000.projectInput_fields := {[ "projectStatus" := "Created" ]};
     Part000.teamId := None |}.

Definition projectForNoTeam : Part000.ProjectInput :=
  {| Part000.projectInput_fields := {[ "projectStatus" := "Created" ]};
     Part000.teamId := Some 9 |}.

Definition completing : Part000.ProjectInput :=
  {| Part000.projectInput_fields := {[ "projectStatus" := "Completed" ]};
     Part000.teamId := Some 8 |}.

Definition replacing : Resolvers.ProjectInput :=
  {| Resolvers.projectInput_fields := {[ "projectStatus" := "Completed" ]};
     Resolvers.teamIds := [1; 8];
     Resolvers.taskIds := [] |}.

End Scenario.

Module OverviewProps.
Import Overview.

Section Tally.
Implicit Types (counts : gmap string nat) (k : string) (keys : list string).

Lemma sum_counts_insert_None counts k v :
    counts !! k = None → sum_counts (<[k := v]> counts) = (v + sum_counts counts)%nat.
Proof.
  intros Hk. unfold sum_counts.
  by rewrite (map_to_list_insert counts k v Hk).
Qed.

Lemma sum_counts_delete counts k n :
    counts !! k = Some n → sum_counts counts = (n + sum_counts (delete k counts))%nat.
Proof.
  intros Hk. unfold sum_counts.
  by rewrite <- (map_to_list_delete counts k n Hk).
Qed.

Lemma sum_counts_insert_Some counts k n v :
    counts !! k = Some n →
    (sum_counts (<[k := v]> counts) + n = v + sum_counts counts)%nat.
Proof.
  intros Hk. rewrite <- insert_delete_eq.
  rewrite sum_counts_insert_None by apply lookup_delete_eq.
  rewrite (sum_counts_delete counts k n Hk). lia.
Qed.

(** Every step of the reduce adds exactly one to the sum of the counts. *)
Lemma sum_counts_tally_step (acc : gmap string nat) k :
    sum_counts (tally_step acc k) = S (sum_counts acc).
Proof.
  unfold tally_step. destruct (acc !! k) as [n|] eqn:Hk.
  - destruct (Nat.eqb_spec n 0) as [->|Hn].
    + pose proof (sum_counts_insert_Some acc k 0 1 Hk). lia.
    + pose proof (sum_counts_insert_Some acc k n (S n) Hk). lia.
  - by rewrite sum_counts_insert_None.
Qed.

Lemma sum_counts_foldl keys (acc : gmap string nat) :
    sum_counts (foldl tally_step acc keys) = (sum_counts acc + length keys)%nat.
Proof.
  revert acc. induction keys as [|k keys IH]; intros acc; simpl.
  - lia.
  - rewrite IH, sum_counts_tally_step. lia.
Qed.

Lemma sum_counts_tally keys : sum_counts (tally keys) = length keys.
Proof.
  unfold tally. rewrite sum_counts_foldl. unfold sum_counts.
  by rewrite map_to_list_empty.
Qed.

(** The count stored under a key is the number of its occurrences. *)
Lemma tally_step_lookup (acc : gmap string nat) k k' :
    default 0%nat (tally_step acc k' !! k)
    = (default 0%nat (acc !! k) + if decide (k = k') then 1 else 0)%nat.
Proof.
  unfold tally_step. destruct (acc !! k') as [n|] eqn:Hk'.
  - destruct (Nat.eqb_spec n 0) as [->|Hn];
      rewrite lookup_insert; repeat case_decide; subst;
      try rewrite Hk'; simpl; try congruence; lia.
  - rewrite lookup_insert; repeat case_decide; subst;
      try rewrite Hk'; simpl; try congruence; lia.
Qed.

Lemma foldl_tally_lookup keys (acc : gmap string nat) k :
    default 0%nat (foldl tally_step acc keys !! k)
    = (default 0%nat (acc !! k) + length (filter (fun k' => k' = k) keys))%nat.
Proof.
  revert acc. induction keys as [|k' keys IH]; intros acc; simpl.
  - lia.
  - rewrite IH, tally_step_lookup, filter_cons.
    repeat case_decide; subst; simpl; try congruence; lia.
Qed.

Lemma tally_lookup keys k :
    default 0%nat (tally keys !! k) = length (filter (fun k' => k' = k) keys).
Proof. unfold tally. by rewrite foldl_tally_lookup, lookup_empty. Qed.

Lemma filter_all {A} (P : A → Prop) `{∀ x, Decision (P x)} (l : list A) :
    Forall P l → filter P l = l.
Proof.
  induction 1 as [|x l Hx _ IH]; [done|].
  by rewrite filter_cons_True, IH.
Qed.

(** Adding up [counts[status]] over some of the keys of [counts]. *)
Lemma foldl_counts_entries counts (P : string → Prop) `{∀ k, Decision (P k)}
      (entries : list (string * nat)) (a : nat) :
    (∀ k v, (k, v) ∈ entries → counts !! k = Some v) →
    foldl (fun acc status => (acc + counts !!! status)%nat) a (filter P entries.*1)
    = (a + sum_list (filter (fun kv => P kv.1) entries).*2)%nat.
Proof.
  revert a. induction entries as [|[k v] entries IH]; intros a Hin; simpl.
  - lia.
  - rewrite !filter_cons; simpl.
    assert (Hrest : ∀ k' v', (k', v') ∈ entries → counts !! k' = Some v')
      by (intros; apply Hin; by right).
    destruct (decide (P k)); simpl.
    + rewrite IH by done.
      rewrite (lookup_total_correct counts k v) by (apply Hin; by left).
      symmetry. apply Nat.add_assoc.
    + by apply IH.
Qed.

Lemma incompleteCount_sum counts :
    (incompleteCount counts + default 0 (counts !! "Completed"))%nat
    = sum_counts counts.
Proof.
  unfold incompleteCount, Object_keys.
  rewrite foldl_counts_entries
    by (intros k v Hkv; by apply elem_of_map_to_list).
  destruct (counts !! "Completed") as [c|] eqn:Hc; simpl.
  - rewrite (sum_counts_delete counts _ c Hc). unfold sum_counts.
    rewrite <- (map_to_list_delete counts _ c Hc), filter_cons_False by naive_solver.
    rewrite filter_all; [lia|].
    apply Forall_forall. intros [k v] Hkv. simpl. intros ->.
    apply elem_of_map_to_list in Hkv. by rewrite lookup_delete_eq in Hkv.
  - unfold sum_counts. rewrite filter_all; [lia|].
    apply Forall_forall. intros [k v] Hkv. simpl. intros ->.
    apply elem_of_map_to_list in Hkv. congruence.
Qed.

Lemma sum_chartData counts :
    sum_list (map chart_value (chartData counts)) = sum_counts counts.
Proof.
  unfold chartData, Object_entries, sum_counts.
  induction (map_to_list counts) as [|[k v] l IH]; simpl; [done|].
  by rewrite IH.
Qed.
End Tally.

Lemma status_key_inj s1 s2 : status_key s1 = status_key s2 → s1 = s2.
Proof. by destruct s1, s2. Qed.

Lemma status_key_own s : status_key s ∉ objectPrototypeKeys.
Proof.
  unfold objectPrototypeKeys.
  destruct s; simpl; rewrite !not_elem_of_cons; repeat split;
    solve [discriminate | apply not_elem_of_nil].
Qed.

Lemma count_status_key {A} (f : A → Status) (s : Status) (l : list A) :
  length (filter (fun k' => k' = status_key s) (map (fun x => status_key (f x)) l))
  = length (filter (fun x => f x = s) l).
Proof.
  induction l as [|x l IH]; simpl; [done|].
  rewrite !filter_cons.
  destruct (decide (f x = s)) as [Heq|Hne].
  - rewrite decide_True by (by rewrite Heq). simpl. by rewrite IH.
  - rewrite decide_False; [done|]. intros Hk. by apply Hne, status_key_inj.
Qed.

(** C7: the status tally is a total partition.  For every project list the
    per-status counts of [projectStatusCounts] sum to the length of the list,
    each status's bucket holds exactly the projects with that status, the
    chart values add up to the same number, and [totalProjectsCount] is the
    list length; likewise for every task list. *)
Theorem status_tally_total_partition :
  (∀ projects : list Project,
      sum_counts (projectStatusCounts projects) = length projects
      ∧ (∀ s, default 0%nat (projectStatusCounts projects !! status_key s)
              = length (filter (fun p => projectStatus p = s) projects))
      ∧ sum_list (map chart_value (projectChartData projects)) = length projects
      ∧ totalProjectsCount projects = length projects)
  ∧ (∀ tasks : list Task,
      sum_counts (taskStatusCounts tasks) = length tasks
      ∧ (∀ s, default 0%nat (taskStatusCounts tasks !! status_key s)
              = length (filter (fun t => taskStatus t = s) tasks))
      ∧ sum_list (map chart_value (taskChartData tasks)) = length tasks
      ∧ totalTasksCount tasks = length tasks).
Proof.
  split.
  - intros projects. unfold projectChartData, projectStatusCounts.
    rewrite sum_chartData, sum_counts_tally, length_map.
    repeat split. intros s. by rewrite tally_lookup, count_status_key.
  - intros tasks. unfold taskChartData, taskStatusCounts.
    rewrite sum_chartData, sum_counts_tally, length_map.
    repeat split. intros s. by rewrite tally_lookup, count_status_key.
Qed.

(** C8: for every task list, the incomplete-task count (the tallies of all
    statuses other than "Completed" added up) is the number of tasks minus
    the number of tasks whose status is Completed. *)
Theorem incompleteTasksCount_total_minus_completed (tasks : list Task) :
  incompleteTasksCount tasks
  = (totalTasksCount tasks
     - length (filter (fun t => taskStatus t = Completed) tasks))%nat.
Proof.
  unfold incompleteTasksCount, totalTasksCount.
  pose proof (incompleteCount_sum (taskStatusCounts tasks)) as Hsum.
  unfold taskStatusCounts in *.
  rewrite sum_counts_tally, length_map in Hsum.
  change "Completed" with (status_key Completed) in Hsum.
  rewrite tally_lookup, count_status_key in Hsum. lia.
Qed.

Section DueDateProps.
Context {R : Type}.
Variable dateDue : R → string.
Variable today : Z.
Variable day : R → Day.
Local Open Scope Z_scope.

Abbreviation dueOn := (dueOn dateDue day).
Abbreviation upcoming := (upcoming today day).
Abbreviation todayDay := (todayDay today).

(** A date that parses is a local midnight. *)
Lemma parseFormattedDate_midnight text time :
  parseFormattedDate text = Some time → ∃ d, time = d * msPerDay.
Proof.
  unfold parseFormattedDate, newDate, TimeClip.
  destruct (parseInt (split " " text !! 2%nat)) as [y|]; [|done].
  destruct (split " " text !! 0%nat ≫= _) as [m|]; [|done].
  destruct (parseInt (split " " text !! 1%nat)) as [d|]; [|done].
  simpl. case_match; [|done]. intros [= <-]. by eexists.
Qed.

Lemma toDateString_midnight d : toDateString (Some (d * msPerDay)) = OnDay d.
Proof. unfold toDateString. f_equal. by apply Z.div_mul. Qed.

Lemma midnight_gt_today d :
  Date_gt (Some (d * msPerDay)) (Some today) = true ↔ todayDay < d.
Proof.
  simpl. rewrite Z.gtb_ltb, Z.ltb_lt.
  unfold Overview.todayDay, msPerDay. Z.div_mod_to_equations. lia.
Qed.

Lemma midnight_le_today d :
  Date_le (Some (d * msPerDay)) (Some today) = true ↔ d ≤ todayDay.
Proof.
  simpl. rewrite Z.leb_le.
  unfold Overview.todayDay, msPerDay. Z.div_mod_to_equations. lia.
Qed.

Lemma midnight_lt d d' :
  Date_lt (Some (d * msPerDay)) (Some (d' * msPerDay)) = true ↔ d < d'.
Proof. simpl. rewrite Z.ltb_lt. unfold msPerDay. lia. Qed.

Lemma isDueToday_true r :
  dueOn r → isDueToday dateDue today r = true ↔ day r = todayDay.
Proof.
  unfold Overview.dueOn, isDueToday. intros ->.
  rewrite toDateString_midnight, bool_decide_eq_true. unfold toDateString.
  split; [by intros [= ->]|by intros ->].
Qed.

Lemma isDueToday_false r :
  dueOn r → isDueToday dateDue today r = false ↔ day r ≠ todayDay.
Proof.
  intros Hr. rewrite <- (isDueToday_true r Hr).
  by destruct (isDueToday dateDue today r).
Qed.

(** The replacement test of the reduce, read on calendar days. *)
Lemma isCurrentClosest_spec (current closest : R) :
  dueOn current → dueOn closest →
  Date_gt (parseFormattedDate (dateDue current)) (Some today)
  && (Date_lt (parseFormattedDate (dateDue current))
        (parseFormattedDate (dateDue closest))
      || Date_le (parseFormattedDate (dateDue closest)) (Some today)) = true
  ↔ upcoming current ∧ (day current < day closest ∨ ¬ upcoming closest).
Proof.
  unfold Overview.dueOn, Overview.upcoming. intros -> ->.
  rewrite andb_true_iff, orb_true_iff, midnight_gt_today, midnight_lt, midnight_le_today.
  lia.
Qed.

Lemma closestInv_elem records closest :
  closestInv today day records (Some closest) → closest ∈ records.
Proof.
  intros [(before & after & -> & _)|(_ & Hhd & _)].
  - apply elem_of_app. right. by left.
  - by apply head_Some_elem_of.
Qed.

Lemma closestDueDate_inv records :
  Forall dueOn records →
  (∀ r, r ∈ records → isDueToday dateDue today r = false) →
  closestInv today day records (closestDueDate dateDue today records).
Proof.
  unfold closestDueDate.
  induction records as [|x l IH] using rev_ind; intros Hdue Hnot; [done|].
  rewrite foldl_snoc.
  apply Forall_app in Hdue as [Hdue Hx]. apply Forall_inv in Hx.
  assert (Hl : ∀ r, r ∈ l → isDueToday dateDue today r = false)
    by (intros r Hr; apply Hnot, elem_of_app; by left).
  specialize (IH Hdue Hl).
  unfold closestStep at 1.
  rewrite (Hnot x) by (apply elem_of_app; right; by left).
  destruct (foldl _ None l) as [c|].
  - assert (Hc : dueOn c).
    { eapply (proj1 (Forall_forall _ _) Hdue). by eapply closestInv_elem. }
    simpl in IH.
    match goal with |- context [if ?b then _ else _] => destruct b eqn:Hb end.
    + apply (isCurrentClosest_spec x c Hx Hc) in Hb as [Hxup Hcase]. left.
      exists l, []. repeat split; [done| |by intros ? ?%elem_of_nil].
      intros r' Hr' Hup.
      destruct IH as [(before & after & -> & Hcu & Hbef & Haft)|(_ & _ & Hnone)];
        [|by destruct (Hnone r' Hr')].
      destruct Hcase as [Hlt|]; [|done].
      apply elem_of_app in Hr' as [Hr'|Hr'].
      * specialize (Hbef r' Hr' Hup). lia.
      * apply elem_of_cons in Hr' as [->|Hr']; [done|].
        specialize (Haft r' Hr' Hup). lia.
    + assert (Hcase : ¬ (upcoming x ∧ (day x < day c ∨ ¬ upcoming c))).
      { intros H. apply (isCurrentClosest_spec x c Hx Hc) in H. congruence. }
      destruct IH as [(before & after & -> & Hcu & Hbef & Haft)|(Hcn & Hhd & Hnone)].
      * left. exists before, (after ++ [x]).
        rewrite <- app_assoc. repeat split; [done|done|].
        intros r' Hr' Hup. apply elem_of_app in Hr' as [Hr'|Hr'].
        -- by apply Haft.
        -- apply list_elem_of_singleton in Hr' as ->.
           destruct (decide (day c ≤ day x)); [done|].
           exfalso. apply Hcase. split; [done|]. left. lia.
      * right. repeat split; [done| |].
        -- destruct l; [done|]. done.
        -- intros r' Hr'. apply elem_of_app in Hr' as [Hr'|Hr'].
           ++ by apply Hnone.
           ++ apply list_elem_of_singleton in Hr' as ->. tauto.
  - simpl in IH. subst l. simpl.
    destruct (decide (todayDay < day x)) as [Hxup|Hxup].
    + left. exists [], []. repeat split; [done| |];
        by intros ? ?%elem_of_nil.
    + right. repeat split; [done|].
      intros r' Hr'. by apply list_elem_of_singleton in Hr' as ->.
Qed.

Lemma hasDueDateToday_false records :
  hasDueDateToday dateDue today records = false ↔
  ∀ r, r ∈ records → isDueToday dateDue today r = false.
Proof.
  unfold hasDueDateToday. induction records as [|x l IH]; simpl.
  - split; [by intros _ ? ?%elem_of_nil|done].
  - rewrite orb_false_iff, IH. split.
    + intros [Hx Hl] r [->|Hr]%elem_of_cons; auto.
    + intros H. split; [apply H; by left|]. intros r Hr. apply H. by right.
Qed.

(** A record due today is selected outright, the first such one, and the
    card reads "TODAY". *)
Lemma recordToReturn_due_today records :
  Forall dueOn records →
  hasDueDateToday dateDue today records = true →
  ∃ r before after,
    recordToReturn dateDue today records = Some r
    ∧ records = before ++ r :: after
    ∧ day r = todayDay
    ∧ (∀ r', r' ∈ before → day r' ≠ todayDay)
    ∧ dueText dateDue today (recordToReturn dateDue today records) = TODAY.
Proof.
  intros Hdue Hhas. unfold recordToReturn. rewrite Hhas.
  unfold hasDueDateToday in Hhas.
  induction records as [|x l IH]; simpl in *; [done|].
  apply Forall_cons in Hdue as [Hx Hdue].
  destruct (isDueToday dateDue today x) eqn:Hxt.
  - exists x, [], l. simpl. rewrite Hxt. repeat split; try done.
    + by apply isDueToday_true.
    + by intros ? ?%elem_of_nil.
  - destruct (IH Hdue Hhas) as (r & before & after & Hf & -> & Hr & Hbef & Htxt).
    exists r, (x :: before), after. repeat split; try done.
    intros r' [->|Hr']%elem_of_cons; [by apply isDueToday_false|by apply Hbef].
Qed.

(** With no record due today and at least one upcoming record, the
    first-encountered earliest upcoming record is selected and its date is
    shown. *)
Lemma recordToReturn_upcoming records :
  Forall dueOn records →
  hasDueDateToday dateDue today records = false →
  (∃ r', r' ∈ records ∧ upcoming r') →
  ∃ r,
    recordToReturn dateDue today records = Some r
    ∧ firstEarliestUpcoming today day r records
    ∧ dueText dateDue today (recordToReturn dateDue today records)
      = DateText (OnDay (day r)).
Proof.
  intros Hdue Hhas (r' & Hr' & Hup). unfold recordToReturn. rewrite Hhas.
  pose proof (proj1 (hasDueDateToday_false records) Hhas) as Hnot.
  pose proof (closestDueDate_inv records Hdue Hnot) as Hinv.
  destruct (closestDueDate dateDue today records) as [r|]; simpl in Hinv.
  - pose proof (closestInv_elem _ _ Hinv) as Hr.
    destruct Hinv as [Hfirst|(_ & _ & Hnone)]; [|by destruct (Hnone r' Hr')].
    exists r. repeat split; [done|]. simpl.
    rewrite (Hnot r Hr).
    rewrite (proj1 (Forall_forall _ _) Hdue r Hr).
    by rewrite toDateString_midnight.
  - subst records. by apply elem_of_nil in Hr'.
Qed.

(** With every record due before today, the reduce keeps the first record
    of the list: a record is shown with its past date, and "No upcoming due
    date" appears for the empty list only. *)
Lemma recordToReturn_past_only records :
  Forall dueOn records →
  (∀ r, r ∈ records → day r < todayDay) →
  recordToReturn dateDue today records = head records
  ∧ dueText dateDue today (recordToReturn dateDue today records)
    = match head records with
      | Some r => DateText (OnDay (day r))
      | None => NoUpcomingDueDate
      end.
Proof.
  intros Hdue Hpast.
  assert (Hnot : ∀ r, r ∈ records → isDueToday dateDue today r = false).
  { intros r Hr. apply isDueToday_false.
    - by apply (proj1 (Forall_forall _ _) Hdue).
    - specialize (Hpast r Hr). lia. }
  pose proof (proj2 (hasDueDateToday_false records) Hnot) as Hhas.
  pose proof (closestDueDate_inv records Hdue Hnot) as Hinv.
  unfold recordToReturn. rewrite Hhas.
  destruct (closestDueDate dateDue today records) as [r|]; simpl in Hinv.
  - pose proof (closestInv_elem _ _ Hinv) as Hr.
    destruct Hinv as [(before & after & _ & Hup & _)|(_ & Hhd & _)].
    + unfold Overview.upcoming in Hup. specialize (Hpast r Hr). lia.
    + rewrite Hhd. split; [done|]. simpl.
      rewrite (Hnot r Hr), (proj1 (Forall_forall _ _) Hdue r Hr).
      by rewrite toDateString_midnight.
  - by subst records.
Qed.
End DueDateProps.

(** C4, on the day after a record's due day: it is 09:30 on 2 November 2026
    (day 20759) and the list holds one project (one task) due "Nov 1 2026".
    No record is upcoming, and the card shows that record's past date where
    the claim says "No upcoming due date"; that text is shown for the empty
    list. *)
Theorem past_due_record_is_shown_as_next :
  let today := (20759 * msPerDay + 34200000)%Z in
  toDateString (Some today) = OnDay 20759%Z
  ∧ toDateString (parseFormattedDate "Nov 1 2026") = OnDay 20758%Z
  ∧ projectDueText today [mkProject Pending "Nov 1 2026"] = DateText (OnDay 20758%Z)
  ∧ taskDueText today [mkTask InProgress "Nov 1 2026"] = DateText (OnDay 20758%Z)
  ∧ projectDueText today [] = NoUpcomingDueDate.
Proof. vm_compute. done. Qed.

(** The scenarios of the specification. *)
Example tally_scenario :
  let projects := [mkProject Completed "Nov 2 2026"; mkProject Pending "Nov 9 2026";
                   mkProject Pending "Nov 16 2026"] in
  projectStatusCounts projects = {[ "Completed" := 1%nat; "Pending" := 2%nat ]}
  ∧ totalProjectsCount projects = 3%nat.
Proof. vm_compute. split; reflexivity. Qed.

Example due_today_scenario :
  let today := (20759 * msPerDay + 34200000)%Z in
  let tasks := [mkTask Pending "Nov 9 2026"; mkTask Created "Nov 2 2026"] in
  taskToReturn today tasks = Some (mkTask Created "Nov 2 2026")
  ∧ taskDueText today tasks = TODAY.
Proof. vm_compute. split; reflexivity. Qed.

Example next_week_scenario :
  let today := (20759 * msPerDay + 34200000)%Z in
  let tasks := [mkTask Pending "Oct 24 2026"; mkTask Pending "Nov 16 2026";
                mkTask Created "Nov 9 2026"; mkTask InProgress "Nov 9 2026"] in
  taskToReturn today tasks = Some (mkTask Created "Nov 9 2026")
  ∧ taskDueText today tasks = DateText (OnDay 20766%Z).
Proof. vm_compute. split; reflexivity. Qed.

End OverviewProps.

(** * Properties of the resolvers *)

Module ResolverProps.
Import Store.

(** Unfolding the resolver monad down to the store. *)
Ltac run :=
  repeat (progress (unfold mbind, Async_bind, mret, Async_ret, get, modify, throw,
                      try_catch, generateId; simpl)).

Lemma DB_eta db :
  mkDB (users db) (teams db) (projects db) (tasks db) (nextId db) = db.
Proof. by destruct db. Qed.

Lemma fst_pairing {A B} (f : A → B) (l : list A) :
  ((fun x => (x, f x)) <$> l).*1 = l.
Proof. induction l as [|x l IH]; simpl; by f_equal. Qed.

Lemma alter_absent {A} (f : A → A) (m : gmap ObjectId A) (i : ObjectId) :
  m !! i = None → alter f i m = m.
Proof.
  intros Habsent. apply map_eq. intros j. rewrite lookup_alter.
  case_decide; subst; by rewrite ?Habsent.
Qed.

Section Lookup.
Lemma first_with_email_Some email db id user :
    first_with_email email db = Some (id, user) →
    users db !! id = Some user ∧ user_fields user !! "email" = Some email.
Proof.
  unfold first_with_email. intros Hhd.
  apply head_Some_elem_of, list_elem_of_filter in Hhd as [Hmail Hin].
  by apply elem_of_map_to_list in Hin.
Qed.

Lemma first_with_email_None email db :
    first_with_email email db = None ↔
    ∀ id user, users db !! id = Some user → user_fields user !! "email" ≠ Some email.
Proof.
  unfold first_with_email. split.
  - intros Hhd id user Hu Hmail.
    assert (Hin : (id, user) ∈ filter
              (fun doc : ObjectId * User => user_fields doc.2 !! "email" = Some email)
              (map_to_list (users db))).
    { apply list_elem_of_filter. split; [done|]. by apply elem_of_map_to_list. }
    destruct (filter _ _); [by apply elem_of_nil in Hin|done].
  - intros Hnone.
    destruct (filter _ _) as [|[id user] l] eqn:Hf; [done|]. exfalso.
    assert (Hin : (id, user) ∈ filter
              (fun doc : ObjectId * User => user_fields doc.2 !! "email" = Some email)
              (map_to_list (users db))) by (rewrite Hf; by left).
    apply list_elem_of_filter in Hin as [Hmail Hin].
    apply elem_of_map_to_list in Hin. by apply (Hnone id user).
Qed.
End Lookup.

(** ** login *)

Section Login.
Variable isCorrectPassword : User → string → bool.
Variable signToken : ObjectId → User → string.
Variables (email password : string) (db : DB).

Lemma login_not_found :
  first_with_email email db = None →
  Part000.login isCorrectPassword signToken email password db
    = (Threw AuthenticationError, db)
  ∧ Resolvers.login isCorrectPassword signToken email password db
    = (Threw AuthenticationError, db).
Proof.
  intros Hnone. unfold Part000.login, Resolvers.login, User_findOne_email. run.
  by rewrite Hnone.
Qed.

Lemma login_password_mismatch id user :
  first_with_email email db = Some (id, user) →
  isCorrectPassword user password = false →
  Part000.login isCorrectPassword signToken email password db
    = (Threw AuthenticationError, db)
  ∧ Resolvers.login isCorrectPassword signToken email password db
    = (Threw AuthenticationError, db).
Proof.
  intros Hfound Hwrong. unfold Part000.login, Resolvers.login, User_findOne_email. run.
  rewrite Hfound. run. by rewrite Hwrong.
Qed.

(** C2: when the lookup by e-mail finds no user, or finds a user whose
    stored hash does not match the password, [login] throws the
    authentication error - in both resolver files - returns no user object
    and leaves the store as it was. *)
Theorem login_rejects_with_authentication_error :
  match first_with_email email db with
  | Some (_, user) => isCorrectPassword user password = false
  | None => True
  end →
  Part000.login isCorrectPassword signToken email password db
    = (Threw AuthenticationError, db)
  ∧ Resolvers.login isCorrectPassword signToken email password db
    = (Threw AuthenticationError, db).
Proof.
  destruct (first_with_email email db) as [[id user]|] eqn:Hfound.
  - intros Hwrong. by apply (login_password_mismatch id user).
  - intros _. by apply login_not_found.
Qed.

(** The two readings of the hypothesis: no user is found exactly when no
    user has the e-mail, and the user found has it. *)
Corollary login_unknown_email :
  (∀ id user, users db !! id = Some user → user_fields user !! "email" ≠ Some email) →
  Part000.login isCorrectPassword signToken email password db
    = (Threw AuthenticationError, db)
  ∧ Resolvers.login isCorrectPassword signToken email password db
    = (Threw AuthenticationError, db).
Proof.
  intros Hnone. by apply login_not_found, first_with_email_None.
Qed.

Corollary login_wrong_password :
  (∃ id user, users db !! id = Some user ∧ user_fields user !! "email" = Some email) →
  (∀ id user, users db !! id = Some user → user_fields user !! "email" = Some email →
              isCorrectPassword user password = false) →
  Part000.login isCorrectPassword signToken email password db
    = (Threw AuthenticationError, db)
  ∧ Resolvers.login isCorrectPassword signToken email password db
    = (Threw AuthenticationError, db).
Proof.
  intros (id & user & Huser & Hmail) Hwrong.
  destruct (first_with_email email db) as [[id' user']|] eqn:Hfound.
  - apply (login_password_mismatch id' user'); [done|].
    apply first_with_email_Some in Hfound as [Huser' Hmail']. by apply (Hwrong id').
  - exfalso. by apply (proj1 (first_with_email_None email db) Hfound id user).
Qed.
End Login.

(** On success the user found and a token signed for it are returned. *)
Lemma login_accepts
    (isCorrectPassword : User → string → bool) (signToken : ObjectId → User → string)
    (email password : string) (db : DB) id user :
  first_with_email email db = Some (id, user) →
  isCorrectPassword user password = true →
  Part000.login isCorrectPassword signToken email password db
    = (Returned (mkAuth (id, user) (signToken id user)), db).
Proof.
  intros Hfound Hok. unfold Part000.login, User_findOne_email. run.
  rewrite Hfound. run. by rewrite Hok.
Qed.

(** ** removeUser, removeProject, removeTask *)

(** C10: deleting by an identifier that matches no record returns [null],
    throws nothing and leaves the store unchanged, for users, projects and
    tasks, in both resolver files. *)
Theorem remove_absent_is_silent_noop (db : DB) (id : ObjectId) :
  (users db !! id = None →
     Part000.removeUser id db = (Returned None, db)
     ∧ Resolvers.removeUser id db = (Returned None, db))
  ∧ (projects db !! id = None →
       Part000.removeProject id db = (Returned None, db)
       ∧ Resolvers.removeProject id db = (Returned None, db))
  ∧ (tasks db !! id = None →
       Part000.removeTask id db = (Returned None, db)
       ∧ Resolvers.removeTask id db = (Returned None, db)).
Proof.
  unfold Part000.removeUser, Resolvers.removeUser, User_findOneAndDelete, User_findById,
    Part000.removeProject, Resolvers.removeProject, Project_findOneAndDelete,
    Project_findById, Part000.removeTask, Resolvers.removeTask, Task_findOneAndDelete,
    Task_findById, set_users, set_projects, set_tasks.
  run. split; [|split]; intros Habsent; rewrite Habsent, delete_id by done;
    by rewrite DB_eta.
Qed.

(** A matching record is returned and removed; nothing else changes. *)
Lemma removeTask_present (db : DB) (id : ObjectId) task :
  tasks db !! id = Some task →
  Part000.removeTask id db = (Returned (Some task), set_tasks (delete id) db).
Proof.
  intros Hpresent. unfold Part000.removeTask, Task_findOneAndDelete, Task_findById.
  run. by rewrite Hpresent.
Qed.

(** ** updateUser *)

(** [$set]: a path of the patch has the patch's value, every other path
    keeps its value. *)
Lemma lookup_union_patch (patch doc : gmap string string) (k : string) :
  (patch ∪ doc) !! k = match patch !! k with
                       | Some v => Some v
                       | None => doc !! k
                       end.
Proof. rewrite lookup_union. by destruct (patch !! k), (doc !! k). Qed.

(** C9: in the file that re-hashes passwords, [updateUser] returns the user
    record as it was before the patch (or [null] if there is none) while the
    store holds the patched record; in the other file it returns the record
    the store holds after the patch.  For a stored user, field by field: in
    both files the stored record has the input's value at every path of the
    input (the password apart, which the first file hashes) and the old
    value at every other path; so whenever the input changes a field other
    than the password, what the first file returns is not the record it
    has stored. *)
Theorem updateUser_returned_document
    (bcrypt_hash : string → nat → string) (userId : ObjectId) (input : UserInput) (db : DB) :
  let old := Part000.updateUser bcrypt_hash userId input db in
  let new := Resolvers.updateUser userId input db in
  old.1 = Returned (users db !! userId)
  ∧ users old.2 !! userId
    = User_set (Part000.rehash bcrypt_hash (userInput_fields input)) <$> users db !! userId
  ∧ new.1 = Returned (users new.2 !! userId)
  ∧ users new.2 !! userId
    = User_set (userInput_fields input) <$> users db !! userId
  ∧ ∀ user, users db !! userId = Some user →
      ∃ stored stored',
        users old.2 !! userId = Some stored
        ∧ users new.2 !! userId = Some stored'
        ∧ old.1 = Returned (Some user)
        ∧ new.1 = Returned (Some stored')
        ∧ (∀ key value, userInput_fields input !! key = Some value →
             user_fields stored' !! key = Some value
             ∧ (key ≠ "password" → user_fields stored !! key = Some value))
        ∧ (∀ key, userInput_fields input !! key = None →
             user_fields stored !! key = user_fields user !! key
             ∧ user_fields stored' !! key = user_fields user !! key)
        ∧ (∀ key value, key ≠ "password" →
             userInput_fields input !! key = Some value →
             user_fields user !! key ≠ Some value →
             old.1 ≠ Returned (Some stored)).
Proof.
  assert (Hrehash : ∀ key,
            key ≠ "password" ∨ userInput_fields input !! key = None →
            Part000.rehash bcrypt_hash (userInput_fields input) !! key
            = userInput_fields input !! key).
  { intros key Hkey. unfold Part000.rehash.
    destruct (userInput_fields input !! "password") as [password|] eqn:Hpassword;
      [|done].
    destruct (decide (password = "")); [done|].
    destruct Hkey as [Hkey|Hkey]; [by rewrite lookup_insert_ne|].
    rewrite lookup_insert_ne; [done|]. intros <-. congruence. }
  unfold Part000.updateUser, Resolvers.updateUser, User_findOneAndUpdate, User_findById,
    set_users.
  run. rewrite !lookup_alter_eq.
  split; [done|]. split; [done|]. split; [done|]. split; [done|].
  intros user Huser. rewrite Huser. simpl. eexists _, _.
  split; [done|]. split; [done|]. split; [done|]. split; [done|]. simpl.
  split; [|split].
  - intros key value Hkey. rewrite !lookup_union_patch, Hkey. split; [done|].
    intros Hne. by rewrite Hrehash, Hkey by auto.
  - intros key Hkey. by rewrite !lookup_union_patch, Hrehash, Hkey by auto.
  - intros key value Hne Hkey Hold [= Heq].
    apply (f_equal (fun doc => user_fields doc !! key)) in Heq. simpl in Heq.
    rewrite lookup_union_patch, Hrehash, Hkey in Heq by auto. congruence.
Qed.

(** ** tasks *)

(** X19: with a session user, [tasks] of [part_000] returns exactly the
    tasks assigned to that user, each once, and writes nothing. *)
Lemma tasks_with_session (user : ObjectId) (db : DB) :
  ∃ found,
    Part000.tasks (mkContext (Some user)) db = (Returned found, db)
    ∧ NoDup (found.*1.*1)
    ∧ ∀ id task,
        (id, task) ∈ found.*1 ↔ tasks db !! id = Some task ∧ assignedUser task = Some user.
Proof.
  unfold Part000.tasks. run. eexists. split; [done|].
  rewrite fst_pairing. split.
  - eapply NoDup_fmap_2_strong, NoDup_filter, NoDup_map_to_list.
    intros [id1 t1] [id2 t2] [_ Hin1]%list_elem_of_filter [_ Hin2]%list_elem_of_filter.
    simpl. intros ->.
    apply elem_of_map_to_list in Hin1, Hin2. congruence.
  - intros id task. rewrite list_elem_of_filter, elem_of_map_to_list. simpl. tauto.
Qed.

(** C5, the call without a session: the sentinel thrown inside the [try]
    block of [tasks] in [part_000] is caught by the block's own [catch] and
    replaced, so the caller gets the generic "Failed to fetch tasks" error and
    not the authentication error; [tasks] of [resolvers.js] takes no context
    and returns every task. *)
Theorem tasks_without_session_throws_generic_error (db : DB) :
  Part000.tasks (mkContext None) db = (Threw (Error "Failed to fetch tasks"), db)
  ∧ (Part000.tasks (mkContext None) db).1 ≠ Threw AuthenticationError
  ∧ (Resolvers.tasks db).1
    = Returned ((fun doc => (doc, populate_one (users db) (assignedUser doc.2)))
                  <$> map_to_list (tasks db)).
Proof. unfold Part000.tasks, Resolvers.tasks. run. by repeat split. Qed.

(** ** updateTask *)

(** C3, as the two files have it.  On an existing task, [updateTask] of
    [part_000] writes the assignee read from the existing task back over
    whatever the patch carries, so the persisted assignee is the one before
    the update; [updateTask] of [resolvers.js] applies the patch as it is, so
    the assignee stays when the patch has no [assignedUser] and is replaced
    by the supplied value otherwise.  Both return the stored, updated
    task. *)
Theorem updateTask_assignee
    (taskId : ObjectId) (input : TaskInput) (db : DB) (task : Task) :
  tasks db !! taskId = Some task →
  let kept := Part000.updateTask taskId input db in
  let patched := Resolvers.updateTask taskId input db in
  (kept.1 = Returned (tasks kept.2 !! taskId)
   ∧ assignedUser <$> tasks kept.2 !! taskId = Some (assignedUser task))
  ∧ (patched.1 = Returned (tasks patched.2 !! taskId)
     ∧ assignedUser <$> tasks patched.2 !! taskId
       = Some (match taskInput_assignedUser input with
               | Some value => value
               | None => assignedUser task
               end)).
Proof.
  intros Htask.
  unfold Part000.updateTask, Resolvers.updateTask, Task_findOneAndUpdate, Task_findById,
    set_tasks.
  run. rewrite Htask. run. rewrite !lookup_alter_eq, Htask. simpl.
  repeat split. by destruct (assignedUser task).
Qed.

(** X13: [updateTask] on a task that does not exist: [part_000] reports
    "Error updating task", [resolvers.js] returns [null]; neither writes. *)
Lemma updateTask_absent (taskId : ObjectId) (input : TaskInput) (db : DB) :
  tasks db !! taskId = None →
  Part000.updateTask taskId input db = (Threw (Error "Error updating task"), db)
  ∧ Resolvers.updateTask taskId input db = (Returned None, db).
Proof.
  intros Habsent.
  unfold Part000.updateTask, Resolvers.updateTask, Task_findOneAndUpdate, Task_findById,
    set_tasks.
  run. rewrite Habsent. run. split; [done|].
  rewrite alter_absent by done. by destruct db.
Qed.

(** ** addTask *)

Lemma occurrences_push_fresh (id : ObjectId) (refs : list ObjectId) :
  id ∉ refs → occurrences id (refs ++ [id]) = 1.
Proof.
  intros Hfresh. unfold occurrences.
  rewrite filter_app, length_app, filter_cons_True, filter_nil by done. simpl.
  induction refs as [|ref refs IH]; [done|].
  apply not_elem_of_cons in Hfresh as [Hne Hfresh].
  rewrite filter_cons_False by done. by apply IH.
Qed.

Lemma occurrences_push (id : ObjectId) (refs : list ObjectId) :
  occurrences id (refs ++ [id]) = S (occurrences id refs).
Proof.
  unfold occurrences.
  rewrite filter_app, length_app, filter_cons_True, filter_nil by done. simpl. lia.
Qed.

Lemma occurrences_absent (id : ObjectId) (refs : list ObjectId) :
  id ∉ refs → occurrences id refs = 0.
Proof.
  intros Hfresh. unfold occurrences.
  induction refs as [|ref refs IH]; [done|].
  apply not_elem_of_cons in Hfresh as [Hne Hfresh].
  rewrite filter_cons_False by done. by apply IH.
Qed.

(** [addTask] of [part_000] when the project and the assigned user exist:
    the result and the store it leaves. *)
Lemma addTask_linked_run (sentinelMessage : string)
    (projectId : ObjectId) (input : TaskInput) (db : DB) userId project user :
  projects db !! projectId = Some project →
  assignedUserId input = Some userId →
  users db !! userId = Some user →
  let taskId := nextId db in
  let task := set_task_assignedUser userId (Task_of_input input) in
  Part000.addTask sentinelMessage projectId input db
  = (Returned (mkTaskWithAssignee taskId task
                 (Some (userId, push_task_to_user taskId user))),
     mkDB (<[userId := push_task_to_user taskId user]> (users db))
          (teams db)
          (<[projectId := push_task_to_project taskId project]> (projects db))
          (<[taskId := task]> (<[taskId := Task_of_input input]> (tasks db)))
          (S (nextId db))).
Proof.
  intros Hproject Hassigned Huser.
  unfold Part000.addTask, Task_create, Project_findById, Project_save, User_findById_opt,
    Task_save, User_save, populate_one, set_tasks, set_projects, set_users, bump.
  run. rewrite Hproject. run. rewrite Hassigned. simpl. rewrite Huser. by run.
Qed.

(** [addTask] of [part_000] returns only when both exist. *)
Lemma addTask_linked_returned (sentinelMessage : string)
    (projectId : ObjectId) (input : TaskInput) (db : DB) result db' :
  Part000.addTask sentinelMessage projectId input db = (Returned result, db') →
  ∃ userId project user,
    projects db !! projectId = Some project
    ∧ assignedUserId input = Some userId
    ∧ users db !! userId = Some user.
Proof.
  unfold Part000.addTask, Task_create, Project_findById, Project_save, User_findById_opt,
    Task_save, User_save, populate_one, set_tasks, set_projects, set_users, bump.
  run. destruct (projects db !! projectId) as [project|] eqn:Hproject; run; [|done].
  destruct (assignedUserId input) as [userId|]; run; [|done].
  destruct (users db !! userId) as [user|] eqn:Huser; run; [|done].
  intros _. by exists userId, project, user.
Qed.

(** [addTask] of [resolvers.js] when the project exists: the task goes on
    the project's list and no user document is written. *)
Lemma addTask_unlinked_run
    (projectId : ObjectId) (input : TaskInput) (db : DB) project :
  projects db !! projectId = Some project →
  let taskId := nextId db in
  let db' := mkDB (users db) (teams db)
               (<[projectId := push_task_to_project taskId project]> (projects db))
               (<[taskId := Task_of_input input]> (tasks db))
               (S (nextId db)) in
  Resolvers.addTask projectId input db
  = (Returned (mkTaskWithAssignee taskId (Task_of_input input)
                 (Resolvers.populate_projects_tasks db'
                    <$> populate_one (users db) (assignedUserId input))),
     db').
Proof.
  intros Hproject.
  unfold Resolvers.addTask, Task_create, Project_findById, Project_save,
    User_findById_opt, set_tasks, set_projects, bump.
  run. rewrite Hproject. by run.
Qed.

Lemma addTask_unlinked_returned
    (projectId : ObjectId) (input : TaskInput) (db : DB) result db' :
  Resolvers.addTask projectId input db = (Returned result, db') →
  ∃ project, projects db !! projectId = Some project.
Proof.
  unfold Resolvers.addTask, Task_create, Project_findById, Project_save,
    User_findById_opt, set_tasks, set_projects, bump.
  run. destruct (projects db !! projectId) as [project|]; run; [|done].
  intros _. by exists project.
Qed.

(** C1, as the two files have it.  Let the identifier the store generates
    next occur neither in the parent project's task list nor in the assigned
    user's.  After a successful [addTask] of [part_000] the created task's
    identifier occurs exactly once in the project's task list and exactly
    once in the assigned user's task list.  After a successful [addTask] of
    [resolvers.js] it occurs exactly once in the project's task list, and no
    user document has changed. *)
Theorem addTask_created_task_listed_once (sentinelMessage : string)
    (projectId : ObjectId) (input : TaskInput) (db : DB) :
  (∀ project, projects db !! projectId = Some project →
              nextId db ∉ project_tasks project) →
  (∀ userId user, assignedUserId input = Some userId → users db !! userId = Some user →
                  nextId db ∉ user_tasks user) →
  (∀ result db',
      Part000.addTask sentinelMessage projectId input db = (Returned result, db') →
      ∃ userId project user,
        assignedUserId input = Some userId
        ∧ projects db' !! projectId = Some project
        ∧ occurrences (result_id result) (project_tasks project) = 1
        ∧ users db' !! userId = Some user
        ∧ occurrences (result_id result) (user_tasks user) = 1)
  ∧ (∀ result db',
        Resolvers.addTask projectId input db = (Returned result, db') →
        (∃ project,
            projects db' !! projectId = Some project
            ∧ occurrences (result_id result) (project_tasks project) = 1)
        ∧ users db' = users db).
Proof.
  intros Hfresh_project Hfresh_user. split; intros result db' Hrun.
  - destruct (addTask_linked_returned _ _ _ _ _ _ Hrun)
      as (userId & project & user & Hproject & Hassigned & Huser).
    rewrite (addTask_linked_run sentinelMessage _ _ _ _ _ _ Hproject Hassigned Huser)
      in Hrun.
    injection Hrun as <- <-. simpl.
    exists userId, (push_task_to_project (nextId db) project),
      (push_task_to_user (nextId db) user).
    rewrite !lookup_insert_eq. simpl.
    repeat split; [done|..]; apply occurrences_push_fresh; eauto.
  - destruct (addTask_unlinked_returned _ _ _ _ _ Hrun) as (project & Hproject).
    rewrite (addTask_unlinked_run _ input _ _ Hproject) in Hrun.
    injection Hrun as <- <-. simpl. split; [|done].
    exists (push_task_to_project (nextId db) project).
    rewrite lookup_insert_eq. split; [done|].
    apply occurrences_push_fresh; eauto.
Qed.

(** Without the freshness assumption each push still adds exactly one
    occurrence. *)
Lemma addTask_adds_one_occurrence (sentinelMessage : string)
    (projectId : ObjectId) (input : TaskInput) (db : DB) result db' :
  Part000.addTask sentinelMessage projectId input db = (Returned result, db') →
  ∃ userId project user project' user',
    assignedUserId input = Some userId
    ∧ projects db !! projectId = Some project ∧ projects db' !! projectId = Some project'
    ∧ users db !! userId = Some user ∧ users db' !! userId = Some user'
    ∧ occurrences (result_id result) (project_tasks project')
      = S (occurrences (result_id result) (project_tasks project))
    ∧ occurrences (result_id result) (user_tasks user')
      = S (occurrences (result_id result) (user_tasks user))
    ∧ tasks db' !! result_id result = Some (result_task result)
    ∧ assignedUser (result_task result) = Some userId.
Proof.
  intros Hrun.
  destruct (addTask_linked_returned _ _ _ _ _ _ Hrun)
    as (userId & project & user & Hproject & Hassigned & Huser).
  rewrite (addTask_linked_run sentinelMessage _ _ _ _ _ _ Hproject Hassigned Huser)
    in Hrun.
  injection Hrun as <- <-. simpl.
  exists userId, project, user, (push_task_to_project (nextId db) project),
    (push_task_to_user (nextId db) user).
  rewrite !lookup_insert_eq. simpl.
  repeat split; try done; apply occurrences_push.
Qed.

(** ** addProject *)

Section SaveLoop.
Variable update : User → User.

(** The [for ... of] loop over fetched users that saves each one updated. *)
Lemma for_of_User_save (docs : list (ObjectId * User)) (db : DB) :
    for_of docs (fun '(userId, user) => User_save userId (update user)) db
    = (Returned (), set_users (saved update docs) db).
Proof.
  revert db. induction docs as [|[userId user] docs IH]; intros db.
  - unfold set_users. simpl. run. by destruct db.
  - simpl. unfold User_save at 1. run. rewrite IH.
    by unfold set_users.
Qed.

Lemma saved_lookup_other docs m userId :
    userId ∉ docs.*1 → saved update docs m !! userId = m !! userId.
Proof.
  revert m. induction docs as [|[id user] docs IH]; intros m Hnotin; [done|].
  simpl in *. apply not_elem_of_cons in Hnotin as [Hne Hnotin].
  unfold saved in *. simpl. rewrite IH by done. by rewrite lookup_insert_ne.
Qed.

Lemma saved_lookup docs m userId user :
    NoDup docs.*1 → (userId, user) ∈ docs →
    saved update docs m !! userId = Some (update user).
Proof.
  revert m. induction docs as [|[id user'] docs IH]; intros m Hnodup Hin.
  - by apply elem_of_nil in Hin.
  - simpl in Hnodup. apply NoDup_cons in Hnodup as [Hfirst Hnodup].
    apply elem_of_cons in Hin as [[= <- <-]|Hin].
    + change (saved update docs (<[userId := update user]> m) !! userId
              = Some (update user)).
      rewrite saved_lookup_other by done. apply lookup_insert_eq.
    + change (saved update docs (<[id := update user']> m) !! userId
              = Some (update user)).
      by apply IH.
Qed.
End SaveLoop.

Lemma find_in_spec {A} (ids : list ObjectId) (coll : gmap ObjectId A) id doc :
  (id, doc) ∈ find_in ids coll ↔ coll !! id = Some doc ∧ id ∈ ids.
Proof.
  unfold find_in. rewrite list_elem_of_filter, elem_of_map_to_list. simpl. tauto.
Qed.

Lemma find_in_NoDup {A} (ids : list ObjectId) (coll : gmap ObjectId A) :
  NoDup (find_in ids coll).*1.
Proof.
  unfold find_in. eapply sublist_NoDup; [apply (NoDup_fst_map_to_list coll)|].
  apply fmap_sublist, sublist_filter.
Qed.

(** [addProject] of [part_000] with the identifier of an existing team. *)
Lemma addProject_team_run (sentinelMessage : string)
    (input : Part000.ProjectInput) (db : DB) teamId team :
  Part000.teamId input = Some teamId →
  teams db !! teamId = Some team →
  let projectId := nextId db in
  let project := {| project_fields := Part000.projectInput_fields input;
                    project_tasks := [];
                    project_team := [Some teamId] |} in
  Part000.addProject sentinelMessage input db
  = (Returned (projectId, project),
     mkDB (saved (push_project_to_user projectId)
             (find_in (members team) (users db)) (users db))
          (<[teamId := push_project_to_team projectId team]> (teams db))
          (<[projectId := project]> (projects db))
          (tasks db)
          (S (nextId db))).
Proof.
  intros HteamId Hteam.
  unfold Part000.addProject, Project_create, Team_findById, Team_save,
    set_projects, set_teams, bump.
  run. rewrite HteamId. run. rewrite Hteam. run.
  rewrite for_of_User_save. by run.
Qed.

Lemma addProject_team_returned (sentinelMessage : string)
    (input : Part000.ProjectInput) (db : DB) teamId result db' :
  Part000.addProject sentinelMessage input db = (Returned result, db') →
  Part000.teamId input = Some teamId →
  ∃ team, teams db !! teamId = Some team.
Proof.
  intros Hrun HteamId. revert Hrun.
  unfold Part000.addProject, Project_create, Team_findById, Team_save,
    set_projects, set_teams, bump.
  run. rewrite HteamId. run.
  destruct (teams db !! teamId) as [team|]; run; [|done].
  intros _. by exists team.
Qed.

(** [addProject] of [resolvers.js]: one project document is written. *)
Lemma addProject_unlinked_run (input : Resolvers.ProjectInput) (db : DB) :
  let projectId := nextId db in
  let project := {| project_fields := Resolvers.projectInput_fields input;
                    project_tasks := (find_in (Resolvers.taskIds input) (tasks db)).*1;
                    project_team :=
                      Some <$> (find_in (Resolvers.teamIds input) (teams db)).*1 |} in
  Resolvers.addProject input db
  = (Returned (projectId, project),
     mkDB (users db) (teams db)
          (<[projectId := project]> (<[projectId :=
              {| project_fields := Resolvers.projectInput_fields input;
                 project_tasks := [];
                 project_team := [] |}]> (projects db)))
          (tasks db)
          (S (nextId db))).
Proof.
  unfold Resolvers.addProject, Project_create, Project_save, set_projects, bump.
  by run.
Qed.

(** The user documents after the save loop of [addProject]: a member of the
    team has the project appended to its list, every other document is as
    it was. *)
Lemma saved_members_lookup (projectId : ObjectId) (ids : list ObjectId)
    (coll : gmap ObjectId User) (userId : ObjectId) :
  saved (push_project_to_user projectId) (find_in ids coll) coll !! userId
  = (if decide (userId ∈ ids) then push_project_to_user projectId <$> coll !! userId
     else coll !! userId).
Proof.
  destruct (coll !! userId) as [user|] eqn:Huser.
  - case_decide as Hmember; simpl.
    + apply saved_lookup; [apply find_in_NoDup|]. by apply find_in_spec.
    + rewrite saved_lookup_other; [done|].
      intros ((id & user') & -> & Hin)%list_elem_of_fmap.
      apply find_in_spec in Hin as [_ Hin]. done.
  - rewrite saved_lookup_other.
    + rewrite Huser. by case_decide.
    + intros ((id & user') & -> & Hin)%list_elem_of_fmap.
      apply find_in_spec in Hin as [Hin _]. simpl in *. congruence.
Qed.

(** C6, as the two files have it.  After a successful [addProject] of
    [part_000] with the identifier of a team, that team exists, its members
    are as before and its project list contains the new project's
    identifier; the project is stored with that team as its team list; every
    member of the team that has a user document still has one, whose project
    list contains the new identifier; and no user document appears or
    disappears.  [addProject] of [resolvers.js] stores the project it
    returns, with exactly the existing teams named by [teamIds] as its team
    list, and writes no team and no user document. *)
Theorem addProject_propagation (sentinelMessage : string) (db : DB) :
  (∀ input teamId result db',
      Part000.addProject sentinelMessage input db = (Returned result, db') →
      Part000.teamId input = Some teamId →
      ∃ team team',
        teams db !! teamId = Some team
        ∧ teams db' !! teamId = Some team'
        ∧ members team' = members team
        ∧ result.1 ∈ team_projects team'
        ∧ (∀ userId user',
            userId ∈ members team' → users db' !! userId = Some user' →
            result.1 ∈ user_projects user')
        ∧ projects db' !! result.1 = Some result.2
        ∧ project_team result.2 = [Some teamId]
        ∧ (∀ userId user,
            userId ∈ members team → users db !! userId = Some user →
            ∃ user', users db' !! userId = Some user'
                     ∧ user_projects user' = user_projects user ++ [result.1])
        ∧ (∀ userId, is_Some (users db' !! userId) ↔ is_Some (users db !! userId)))
  ∧ (∀ input,
        ∃ project,
          (Resolvers.addProject input db).1 = Returned (nextId db, project)
          ∧ (∀ teamId, Some teamId ∈ project_team project ↔
                       is_Some (teams db !! teamId) ∧ teamId ∈ Resolvers.teamIds input)
          ∧ teams (Resolvers.addProject input db).2 = teams db
          ∧ users (Resolvers.addProject input db).2 = users db
          ∧ projects (Resolvers.addProject input db).2 !! nextId db = Some project
          ∧ None ∉ project_team project).
Proof.
  split.
  - intros input teamId result db' Hrun HteamId.
    destruct (addProject_team_returned _ _ _ _ _ _ Hrun HteamId) as [team Hteam].
    rewrite (addProject_team_run sentinelMessage _ _ _ _ HteamId Hteam) in Hrun.
    injection Hrun as <- <-. simpl.
    exists team, (push_project_to_team (nextId db) team).
    rewrite !lookup_insert_eq. simpl.
    split; [done|]. split; [done|]. split; [done|].
    split; [apply elem_of_app; right; by left|].
    split; [|split; [done|split; [done|split]]].
    + intros userId user' Hmember. rewrite saved_members_lookup.
      rewrite decide_True by done.
      intros (user & _ & ->)%fmap_Some. simpl. apply elem_of_app. right. by left.
    + intros userId user Hmember Huser. rewrite saved_members_lookup.
      rewrite decide_True by done. rewrite Huser. simpl. by eexists.
    + intros userId. rewrite saved_members_lookup.
      case_decide; [|done]. by rewrite fmap_is_Some.
  - intros input. rewrite addProject_unlinked_run. simpl.
    eexists. split; [done|]. split; [|split; [done|split; [done|split]]].
    + intros teamId. split.
      * intros (id & [= ->] & ((id' & team) & -> & Hin)%list_elem_of_fmap)%list_elem_of_fmap.
        apply find_in_spec in Hin as [Hteam Hin]. split; [by eexists|done].
      * intros [[team Hteam] Hin]. apply list_elem_of_fmap. exists teamId. split; [done|].
        apply list_elem_of_fmap. exists (teamId, team). split; [done|].
        by apply find_in_spec.
    + by rewrite lookup_insert_eq.
    + by intros (id & [=] & _)%list_elem_of_fmap.
Qed.

(** ** Generated identifiers

    The assumption of [addTask_created_task_listed_once] holds in every
    store the resolvers modelled here can reach from a store where it holds:
    [generated] is kept by each of them, whether they return or throw. *)

Section Generated.
Variable db : DB.
Hypothesis Hgen : generated db.

Lemma generated_bump : generated (bump db).
Proof.
  destruct Hgen as [Ht Hp Hu]. constructor; simpl.
  - intros id Hid. specialize (Ht id Hid). lia.
  - intros id project Hproject. eapply Forall_impl; [by eapply Hp|].
    simpl. intros; lia.
  - intros id user Huser. eapply Forall_impl; [by eapply Hu|].
    simpl. intros; lia.
Qed.

Lemma generated_insert_task id doc :
    id < nextId db → generated (set_tasks (insert id doc) db).
Proof.
  intros Hid. destruct Hgen as [Ht Hp Hu]. constructor; simpl; [|done..].
  intros id' [doc' Hdoc']. apply lookup_insert_Some in Hdoc' as [[<- _]|[_ Hdoc']];
    [done|]. by apply Ht.
Qed.

Lemma generated_insert_project id doc :
    Forall (fun ref => ref < nextId db) (project_tasks doc) →
    generated (set_projects (insert id doc) db).
Proof.
  intros Hdoc. destruct Hgen as [Ht Hp Hu]. constructor; simpl; [done| |done].
  intros id' doc' [[_ <-]|[_ Hdoc']]%lookup_insert_Some; [done|]. by eapply Hp.
Qed.

Lemma generated_insert_user id doc :
    Forall (fun ref => ref < nextId db) (user_tasks doc) →
    generated (set_users (insert id doc) db).
Proof.
  intros Hdoc. destruct Hgen as [Ht Hp Hu]. constructor; simpl; [done..|].
  intros id' doc' [[_ <-]|[_ Hdoc']]%lookup_insert_Some; [done|]. by eapply Hu.
Qed.

Lemma generated_set_teams f : generated (set_teams f db).
Proof. destruct Hgen as [Ht Hp Hu]. by constructor. Qed.

Lemma generated_delete_user id : generated (set_users (delete id) db).
Proof.
  destruct Hgen as [Ht Hp Hu]. constructor; simpl; [done..|].
  intros id' doc' [_ Hdoc']%lookup_delete_Some. by eapply Hu.
Qed.

Lemma generated_delete_project id : generated (set_projects (delete id) db).
Proof.
  destruct Hgen as [Ht Hp Hu]. constructor; simpl; [done| |done].
  intros id' doc' [_ Hdoc']%lookup_delete_Some. by eapply Hp.
Qed.

Lemma generated_delete_task id : generated (set_tasks (delete id) db).
Proof.
  destruct Hgen as [Ht Hp Hu]. constructor; simpl; [|done..].
  intros id' [doc' [_ Hdoc']%lookup_delete_Some]. by apply Ht.
Qed.

Lemma generated_alter_task f id : generated (set_tasks (alter f id) db).
Proof.
  destruct Hgen as [Ht Hp Hu]. constructor; simpl; [|done..].
  intros id' Hsome. apply Ht. rewrite lookup_alter in Hsome.
  case_decide; [subst|done]. by apply fmap_is_Some in Hsome.
Qed.

Lemma generated_alter_user f id :
    (∀ user, user_tasks (f user) = user_tasks user) →
    generated (set_users (alter f id) db).
Proof.
  intros Hf. destruct Hgen as [Ht Hp Hu]. constructor; simpl; [done..|].
  intros id' doc'. rewrite lookup_alter. case_decide; [subst|by apply Hu].
  intros (user & Huser & ->)%fmap_Some. rewrite Hf. by eapply Hu.
Qed.

(** The identifier handed out next is on no list yet. *)
Lemma generated_fresh :
    (∀ id project, projects db !! id = Some project → nextId db ∉ project_tasks project)
    ∧ (∀ id user, users db !! id = Some user → nextId db ∉ user_tasks user).
Proof.
  destruct Hgen as [Ht Hp Hu]. split.
  - intros id project Hproject Hin.
    pose proof (proj1 (Forall_forall _ _) (Hp id project Hproject) _ Hin) as Hlt.
    simpl in Hlt. lia.
  - intros id user Huser Hin.
    pose proof (proj1 (Forall_forall _ _) (Hu id user Huser) _ Hin) as Hlt.
    simpl in Hlt. lia.
Qed.
End Generated.

Lemma generated_saved (update : User → User) (docs : list (ObjectId * User)) (db : DB) :
  (∀ user, user_tasks (update user) = user_tasks user) →
  (∀ id user, (id, user) ∈ docs → Forall (fun ref => ref < nextId db) (user_tasks user)) →
  generated db → generated (set_users (saved update docs) db).
Proof.
  intros Hupdate. revert db. induction docs as [|[id user] docs IH]; intros db Hdocs Hgen.
  - unfold set_users. simpl. by destruct db.
  - change (set_users (saved update ((id, user) :: docs)) db)
      with (set_users (saved update docs) (set_users (insert id (update user)) db)).
    apply IH.
    + intros id' user' Hin. simpl. apply (Hdocs id'). by right.
    + apply generated_insert_user; [done|]. rewrite Hupdate. apply (Hdocs id). by left.
Qed.

Lemma generated_push (db : DB) (refs : list ObjectId) :
  Forall (fun ref => ref < nextId db) refs →
  Forall (fun ref => ref < S (nextId db)) (refs ++ [nextId db]).
Proof.
  intros Hrefs. apply Forall_app. split.
  - eapply Forall_impl; [done|]. simpl. intros; lia.
  - apply Forall_singleton. lia.
Qed.

Lemma generated_empty : generated (mkDB ∅ ∅ ∅ ∅ 0).
Proof.
  constructor; simpl.
  - intros id [task Htask]. by rewrite lookup_empty in Htask.
  - intros id project Hproject. by rewrite lookup_empty in Hproject.
  - intros id user Huser. by rewrite lookup_empty in Huser.
Qed.

(** [addTask] keeps task identifiers generated, in either file and on
    every path: the throw after the task is created and the one after the
    project is saved included. *)
Lemma addTask_generated (sentinelMessage : string)
    (projectId : ObjectId) (input : TaskInput) (db : DB) :
  generated db →
  generated (Part000.addTask sentinelMessage projectId input db).2
  ∧ generated (Resolvers.addTask projectId input db).2.
Proof.
  intros Hgen.
  assert (Hcreated : generated (set_tasks (insert (nextId db) (Task_of_input input)) (bump db))).
  { apply generated_insert_task; [by apply generated_bump|]. simpl. lia. }
  assert (Hsaved : ∀ project, projects db !! projectId = Some project →
            generated (set_projects (insert projectId
                         (push_task_to_project (nextId db) project))
                         (set_tasks (insert (nextId db) (Task_of_input input)) (bump db)))).
  { intros project Hproject. apply generated_insert_project; [done|]. simpl.
    apply generated_push. by eapply generated_project_tasks. }
  unfold Part000.addTask, Resolvers.addTask, Task_create, Project_findById, Project_save,
    User_findById_opt, Task_save, User_save, populate_one.
  run. destruct (projects db !! projectId) as [project|] eqn:Hproject; run; [|done].
  split; [|by apply Hsaved].
  destruct (assignedUserId input) as [userId|]; run; [|by apply Hsaved].
  destruct (users db !! userId) as [user|] eqn:Huser; run; [|by apply Hsaved].
  apply generated_insert_user.
  - apply generated_insert_task; [by apply Hsaved|]. simpl. lia.
  - simpl. apply generated_push. by eapply generated_user_tasks.
Qed.

(** So do the other mutations. *)
Lemma addProject_generated (sentinelMessage : string)
    (input : Part000.ProjectInput) (input' : Resolvers.ProjectInput) (db : DB) :
  generated db →
  generated (Part000.addProject sentinelMessage input db).2
  ∧ generated (Resolvers.addProject input' db).2.
Proof.
  intros Hgen.
  assert (Hcreated : ∀ doc, project_tasks doc = [] →
            generated (set_projects (insert (nextId db) doc) (bump db))).
  { intros doc Hdoc. apply generated_insert_project; [by apply generated_bump|].
    rewrite Hdoc. apply Forall_nil_2. }
  split.
  - unfold Part000.addProject, Project_create, Team_findById, Team_save.
    run. destruct (Part000.teamId input) as [teamId|]; run; [|by apply Hcreated].
    destruct (teams db !! teamId) as [team|]; run; [|by apply Hcreated].
    rewrite for_of_User_save. run.
    apply generated_saved; [done| |by apply generated_set_teams, Hcreated].
    intros id user [Huser _]%find_in_spec. simpl.
    eapply Forall_impl; [by eapply generated_user_tasks|]. simpl. intros; lia.
  - unfold Resolvers.addProject, Project_create, Project_save.
    run. apply generated_insert_project; [by apply Hcreated|]. simpl.
    apply Forall_forall. intros id ((id' & task) & -> & Hin)%list_elem_of_fmap.
    apply find_in_spec in Hin as [Htask _]. simpl.
    assert (id' < nextId db) by (eapply generated_tasks; [done|by eexists]). lia.
Qed.

Lemma update_remove_generated (bcrypt_hash : string → nat → string)
    (id : ObjectId) (userInput : UserInput) (taskInput : TaskInput) (db : DB) :
  generated db →
  generated (Part000.updateUser bcrypt_hash id userInput db).2
  ∧ generated (Resolvers.updateUser id userInput db).2
  ∧ generated (Part000.updateTask id taskInput db).2
  ∧ generated (Resolvers.updateTask id taskInput db).2
  ∧ generated (Part000.removeUser id db).2
  ∧ generated (Part000.removeProject id db).2
  ∧ generated (Part000.removeTask id db).2.
Proof.
  intros Hgen.
  unfold Part000.updateUser, Resolvers.updateUser, Part000.updateTask,
    Resolvers.updateTask, Part000.removeUser, Part000.removeProject, Part000.removeTask,
    User_findOneAndUpdate, Task_findOneAndUpdate, User_findOneAndDelete,
    Project_findOneAndDelete, Task_findOneAndDelete, User_findById, Task_findById,
    Project_findById.
  run. repeat apply conj.
  - by apply generated_alter_user.
  - by apply generated_alter_user.
  - destruct (tasks db !! id); run; [by apply generated_alter_task|done].
  - by apply generated_alter_task.
  - by apply generated_delete_user.
  - by apply generated_delete_project.
  - by apply generated_delete_task.
Qed.

(** ** The properties on the example store *)

Section Examples.
Import Scenario.

Lemma login_rejects_witness :
    (match first_with_email "ada@example.org" db with
     | Some (_, user) => isCorrectPassword user "byron" = false
     | None => True
     end)
    ∧ (match first_with_email "nobody@example.org" db with
       | Some (_, user) => isCorrectPassword user "lovelace" = false
       | None => True
       end)
    ∧ Part000.login isCorrectPassword signToken "ada@example.org" "byron" db
      = (Threw AuthenticationError, db)
    ∧ Resolvers.login isCorrectPassword signToken "nobody@example.org" "lovelace" db
      = (Threw AuthenticationError, db).
Proof.
  assert (H1 : match first_with_email "ada@example.org" db with
               | Some (_, user) => isCorrectPassword user "byron" = false
               | None => True
               end) by (vm_compute; reflexivity).
  assert (H2 : match first_with_email "nobody@example.org" db with
               | Some (_, user) => isCorrectPassword user "lovelace" = false
               | None => True
               end) by (vm_compute; exact I).
  split; [exact H1|]. split; [exact H2|]. split.
  - exact (proj1 (login_rejects_with_authentication_error
                    isCorrectPassword signToken "ada@example.org" "byron" db H1)).
  - exact (proj2 (login_rejects_with_authentication_error
                    isCorrectPassword signToken "nobody@example.org" "lovelace" db H2)).
Defined.

Example login_ada :
    Part000.login isCorrectPassword signToken "ada@example.org" "lovelace" db
    = (Returned (mkAuth (2, ada) "token for ada@example.org"), db).
Proof. vm_compute. reflexivity. Qed.
Lemma lookup_project_4 proj : projects db !! 4 = Some proj → proj = project.
Proof. vm_compute. congruence. Qed.

Lemma lookup_user_3 user : users db !! 3 = Some user → user = grace.
Proof. vm_compute. congruence. Qed.

Lemma addTask_listed_once_witness :
    (∀ proj, projects db !! 4 = Some proj → nextId db ∉ project_tasks proj)
    ∧ (∀ userId user, assignedUserId newTask = Some userId →
                      users db !! userId = Some user → nextId db ∉ user_tasks user)
    ∧ ∃ result db',
        Part000.addTask "" 4 newTask db = (Returned result, db')
        ∧ ∃ userId proj user,
            assignedUserId newTask = Some userId
            ∧ projects db' !! 4 = Some proj
            ∧ occurrences (result_id result) (project_tasks proj) = 1
            ∧ users db' !! userId = Some user
            ∧ occurrences (result_id result) (user_tasks user) = 1.
Proof.
  assert (Hp : ∀ proj, projects db !! 4 = Some proj → nextId db ∉ project_tasks proj).
  { intros proj ->%lookup_project_4. simpl.
    intros [Heq|Hin%elem_of_nil]%elem_of_cons; [discriminate Heq|exact Hin]. }
  assert (Hu : ∀ userId user, assignedUserId newTask = Some userId →
                 users db !! userId = Some user → nextId db ∉ user_tasks user).
  { intros userId user [= <-] ->%lookup_user_3. apply not_elem_of_nil. }
  split; [exact Hp|]. split; [exact Hu|].
  eexists _, _. split; [vm_compute; reflexivity|].
  apply (proj1 (addTask_created_task_listed_once "" 4 newTask db Hp Hu)).
  vm_compute. reflexivity.
Defined.

(** C1 on [resolvers.js]: the call succeeds and resolves user 3, the new
    task 6 is on project 4's list once, and user 3's task list does not
    contain it. *)
Lemma addTask_resolvers_js_leaves_user_list :
    ∃ result db' proj user,
      Resolvers.addTask 4 newTask db = (Returned result, db')
      ∧ result_id result = 6
      ∧ fst <$> (fst <$> result_assignedUser result) = Some 3
      ∧ projects db' !! 4 = Some proj
      ∧ occurrences (result_id result) (project_tasks proj) = 1
      ∧ users db' !! 3 = Some user
      ∧ occurrences (result_id result) (user_tasks user) = 0.
Proof.
  eexists _, _, _, _. split; [vm_compute; reflexivity|].
  vm_compute. repeat split; reflexivity.
Qed.

Lemma updateTask_assignee_witness :
    tasks db !! 5 = Some task
    ∧ assignedUser <$> tasks (Part000.updateTask 5 reassign db).2 !! 5 = Some (Some 2)
    ∧ assignedUser <$> tasks (Resolvers.updateTask 5 reassign db).2 !! 5 = Some (Some 3).
Proof.
  assert (Htask : tasks db !! 5 = Some task) by (vm_compute; reflexivity).
  split; [exact Htask|].
  pose proof (updateTask_assignee 5 reassign db task Htask) as [[_ Hkept] [_ Hpatched]].
  split; [exact Hkept|exact Hpatched].
Defined.

(** C3 on [resolvers.js]: a patch that supplies [assignedUser] replaces the
    assignee of task 5. *)
Lemma updateTask_resolvers_js_replaces_assignee :
    assignedUser <$> tasks db !! 5 = Some (Some 2)
    ∧ assignedUser <$> tasks (Resolvers.updateTask 5 reassign db).2 !! 5 = Some (Some 3)
    ∧ (Resolvers.updateTask 5 reassign db).1
      = Returned (tasks (Resolvers.updateTask 5 reassign db).2 !! 5).
Proof. vm_compute. repeat split; reflexivity. Qed.

Lemma addProject_propagation_witness :
    ∃ result db',
      Part000.addProject "" newProject db = (Returned result, db')
      ∧ Part000.teamId newProject = Some 1
      ∧ ∃ team team',
          teams db !! 1 = Some team
          ∧ teams db' !! 1 = Some team'
          ∧ members team' = members team
          ∧ result.1 ∈ team_projects team'
          ∧ (∀ userId user',
              userId ∈ members team' → users db' !! userId = Some user' →
              result.1 ∈ user_projects user')
          ∧ projects db' !! result.1 = Some result.2
          ∧ project_team result.2 = [Some 1]
          ∧ (∀ userId user,
              userId ∈ members team → users db !! userId = Some user →
              ∃ user', users db' !! userId = Some user'
                       ∧ user_projects user' = user_projects user ++ [result.1])
          ∧ (∀ userId, is_Some (users db' !! userId) ↔ is_Some (users db !! userId)).
Proof.
  eexists _, _.
  assert (Hrun : Part000.addProject "" newProject db
                 = (Returned (6, {| project_fields := {[ "projectStatus" := "Created" ]};
                                    project_tasks := [];
                                    project_team := [Some 1] |}),
                    (Part000.addProject "" newProject db).2))
    by (vm_compute; reflexivity).
  split; [exact Hrun|]. split; [reflexivity|].
  exact (proj1 (addProject_propagation "" db) newProject 1 _ _ Hrun eq_refl).
Defined.

(** C6 on [resolvers.js]: the call with team 1 succeeds, and neither the
    team's project list nor the project list of its members 2 and 3
    contains the new project 6. *)
Lemma addProject_resolvers_js_does_not_propagate :
    ∃ result db',
      Resolvers.addProject newProject' db = (Returned result, db')
      ∧ result.1 = 6
      ∧ project_team result.2 = [Some 1]
      ∧ (team_projects <$> teams db' !! 1) = Some [4]
      ∧ (members <$> teams db' !! 1) = Some [2; 3]
      ∧ (user_projects <$> users db' !! 2) = Some [4]
      ∧ (user_projects <$> users db' !! 3) = Some [4].
Proof.
  eexists _, _. split; [vm_compute; reflexivity|].
  vm_compute. repeat split; reflexivity.
Qed.

Lemma remove_absent_witness :
    users db !! 9 = None ∧ projects db !! 9 = None ∧ tasks db !! 9 = None
    ∧ Part000.removeUser 9 db = (Returned None, db)
    ∧ Resolvers.removeUser 9 db = (Returned None, db)
    ∧ Part000.removeProject 9 db = (Returned None, db)
    ∧ Resolvers.removeProject 9 db = (Returned None, db)
    ∧ Part000.removeTask 9 db = (Returned None, db)
    ∧ Resolvers.removeTask 9 db = (Returned None, db).
Proof.
  assert (Hu : users db !! 9 = None) by (vm_compute; reflexivity).
  assert (Hp : projects db !! 9 = None) by (vm_compute; reflexivity).
  assert (Ht : tasks db !! 9 = None) by (vm_compute; reflexivity).
  destruct (remove_absent_is_silent_noop db 9) as (Husers & Hprojects & Htasks).
  destruct (Husers Hu) as [? ?], (Hprojects Hp) as [? ?], (Htasks Ht) as [? ?].
  repeat split; assumption.
Defined.

(** [updateUser] on user 2: [part_000] hands back the record without the
    new first name while the store already has it. *)
Example updateUser_ada :
    (Part000.updateUser bcrypt_hash 2 rename db).1 = Returned (Some ada)
    ∧ (user_fields <$> users (Part000.updateUser bcrypt_hash 2 rename db).2 !! 2)
      = Some {[ "email" := "ada@example.org"; "firstName" := "Augusta";
                "password" := "hash(byron)" ]}
    ∧ (Resolvers.updateUser 2 rename db).1
      = Returned (Some (User_set (userInput_fields rename) ada)).
Proof. vm_compute. repeat split; reflexivity. Qed.

Lemma updateUser_returned_witness :
    users db !! 2 = Some ada
    ∧ ∃ stored stored',
        users (Part000.updateUser bcrypt_hash 2 rename db).2 !! 2 = Some stored
        ∧ users (Resolvers.updateUser 2 rename db).2 !! 2 = Some stored'
        ∧ (Part000.updateUser bcrypt_hash 2 rename db).1 = Returned (Some ada)
        ∧ (Resolvers.updateUser 2 rename db).1 = Returned (Some stored')
        ∧ user_fields stored !! "firstName" = Some "Augusta"
        ∧ user_fields stored' !! "firstName" = Some "Augusta"
        ∧ user_fields stored !! "email" = Some "ada@example.org"
        ∧ (Part000.updateUser bcrypt_hash 2 rename db).1 ≠ Returned (Some stored).
Proof.
  assert (Hada : users db !! 2 = Some ada) by (vm_compute; reflexivity).
  split; [exact Hada|].
  pose proof (updateUser_returned_document bcrypt_hash 2 rename db) as Hupdate.
  cbv zeta in Hupdate. destruct Hupdate as (_ & _ & _ & _ & Hupdate).
  destruct (Hupdate ada Hada)
    as (stored & stored' & Hstored & Hstored' & Hold & Hnew & Hset & Hkept & Hdiffer).
  exists stored, stored'.
  split; [exact Hstored|]. split; [exact Hstored'|].
  split; [exact Hold|]. split; [exact Hnew|].
  assert (HfirstName : userInput_fields rename !! "firstName" = Some "Augusta")
    by (vm_compute; reflexivity).
  assert (Hemail : userInput_fields rename !! "email" = None)
    by (vm_compute; reflexivity).
  destruct (Hset "firstName" "Augusta" HfirstName) as [Hnew' Hold'].
  split; [apply Hold'; discriminate|]. split; [exact Hnew'|].
  split; [rewrite (proj1 (Hkept "email" Hemail)); vm_compute; reflexivity|].
  apply (Hdiffer "firstName" "Augusta"); [discriminate|exact HfirstName|].
  vm_compute. discriminate.
Defined.

Example tasks_of_ada :
    Part000.tasks (mkContext (Some 2)) db = (Returned [(5, task, Some (2, ada))], db)
    ∧ Part000.tasks (mkContext (Some 3)) db = (Returned [], db).
Proof. vm_compute. split; reflexivity. Qed.
End Examples.

End ResolverProps.

(** * Further properties of the overview page *)

Module OverviewExtra.
Import Overview OverviewProps.

(** ** Chart slices and the gauge *)

Lemma foldl_tally_positive (keys : list string) (acc : gmap string nat) :
  (∀ k v, acc !! k = Some v → (0 < v)%nat) →
  ∀ k v, foldl tally_step acc keys !! k = Some v → (0 < v)%nat.
Proof.
  revert acc. induction keys as [|k' keys IH]; intros acc Hacc; [done|].
  simpl. apply IH. intros k v. unfold tally_step.
  destruct (acc !! k') as [n|] eqn:Hk'; [destruct (Nat.eqb_spec n 0)|];
    intros [[_ <-]|[_ Hv]]%lookup_insert_Some; try lia; by eapply Hacc.
Qed.

Lemma tally_lookup_Some (keys : list string) (k : string) (v : nat) :
  tally keys !! k = Some v ↔
  (0 < v)%nat ∧ v = length (filter (fun k' => k' = k) keys).
Proof.
  pose proof (tally_lookup keys k) as Hcount. split.
  - intros Hv. split.
    + eapply (foldl_tally_positive keys ∅); [|exact Hv].
      intros k' v'. by rewrite lookup_empty.
    + by rewrite Hv in Hcount.
  - intros [Hpos ->]. destruct (tally keys !! k) as [v|]; simpl in Hcount.
    + by rewrite Hcount.
    + lia.
Qed.

Lemma chartData_elem (counts : gmap string nat) (datum : ChartDatum) :
  datum ∈ chartData counts ↔ counts !! chart_label datum = Some (chart_value datum).
Proof.
  unfold chartData, Object_entries. rewrite list_elem_of_In, in_map_iff. split.
  - intros ([k v] & <- & Hin). apply list_elem_of_In in Hin.
    by apply elem_of_map_to_list in Hin.
  - intros Hlookup. exists (chart_label datum, chart_value datum). split.
    + by destruct datum.
    + apply list_elem_of_In. by apply elem_of_map_to_list.
Qed.

Lemma chartData_labels_NoDup (counts : gmap string nat) :
  NoDup (map chart_label (chartData counts)).
Proof.
  unfold chartData, Object_entries.
  assert (Hlabels : map chart_label
            (map (fun '(status, count) => mkChartDatum count status) (map_to_list counts))
          = (map_to_list counts).*1).
  { induction (map_to_list counts) as [|[k v] l IH]; simpl; [done|]. by rewrite IH. }
  rewrite Hlabels. apply NoDup_fst_map_to_list.
Qed.

Lemma status_count_positive {A} (f : A → Status) (k : string) (l : list A) :
  (0 < length (filter (fun k' => k' = k) (map (fun x => status_key (f x)) l)))%nat →
  ∃ s, k = status_key s.
Proof.
  induction l as [|x l IH]; simpl; [lia|].
  rewrite filter_cons. case_decide; [by eexists|done].
Qed.

Lemma chart_slices {A} (f : A → Status) (l : list A) (datum : ChartDatum) :
  datum ∈ chartData (tally (map (fun x => status_key (f x)) l)) ↔
  ∃ s, chart_label datum = status_key s
       ∧ chart_value datum = length (filter (fun x => f x = s) l)
       ∧ (0 < chart_value datum)%nat.
Proof.
  rewrite chartData_elem, tally_lookup_Some. split.
  - intros [Hpos Hcount].
    destruct (status_count_positive f (chart_label datum) l) as [s Hs]; [lia|].
    exists s. rewrite Hs, count_status_key in Hcount. done.
  - intros (s & -> & Hcount & Hpos). by rewrite count_status_key.
Qed.

(** X1: the pie charts have one slice per status that occurs.  A slice is in
    the project chart exactly when its label is a status some project has and
    its value is the (positive) number of projects with that status; no two
    slices share a label.  Likewise for the task chart. *)
Theorem chart_slices_are_the_statuses_present :
  (∀ projects : list Project,
      NoDup (map chart_label (projectChartData projects))
      ∧ ∀ datum, datum ∈ projectChartData projects ↔
          ∃ s, chart_label datum = status_key s
               ∧ chart_value datum = length (filter (fun p => projectStatus p = s) projects)
               ∧ (0 < chart_value datum)%nat)
  ∧ (∀ tasks : list Task,
      NoDup (map chart_label (taskChartData tasks))
      ∧ ∀ datum, datum ∈ taskChartData tasks ↔
          ∃ s, chart_label datum = status_key s
               ∧ chart_value datum = length (filter (fun t => taskStatus t = s) tasks)
               ∧ (0 < chart_value datum)%nat).
Proof.
  split; intros l; (split; [apply chartData_labels_NoDup|]); intros datum;
    apply chart_slices.
Qed.

(** X2: the gauge never overshoots.  Its value, [taskStatusCounts.Completed
    || 0], is the number of tasks whose status is Completed, and together
    with the count of tasks to complete it makes up the gauge's maximum, the
    number of tasks. *)
Theorem gauge_value_and_maximum (tasks : list Task) :
  completedTasksCount tasks = length (filter (fun t => taskStatus t = Completed) tasks)
  ∧ (completedTasksCount tasks + incompleteTasksCount tasks)%nat = totalTasksCount tasks
  ∧ (completedTasksCount tasks ≤ totalTasksCount tasks)%nat.
Proof.
  assert (Hcompleted : default 0%nat (taskStatusCounts tasks !! "Completed")
            = length (filter (fun t => taskStatus t = Completed) tasks)).
  { unfold taskStatusCounts. change "Completed" with (status_key Completed).
    by rewrite tally_lookup, count_status_key. }
  assert (Htotal : sum_counts (taskStatusCounts tasks) = length tasks).
  { unfold taskStatusCounts. by rewrite sum_counts_tally, length_map. }
  pose proof (incompleteCount_sum (taskStatusCounts tasks)) as Hsum.
  rewrite Hcompleted, Htotal in Hsum.
  unfold completedTasksCount, incompleteTasksCount, totalTasksCount.
  rewrite Hcompleted. split; [done|]. lia.
Qed.

(** ** The selection of the next due date *)

Section SelectionExtra.
Context {R : Type}.
Variable dateDue : R → string.
Variable today : Z.

Lemma closestStep_cases (closest : option R) (x : R) :
  ∃ r, closestStep dateDue today closest x = Some r ∧ (r = x ∨ closest = Some r).
Proof.
  unfold closestStep. destruct (isDueToday dateDue today x); [by eexists; eauto|].
  destruct closest as [c|]; [|by eexists; eauto].
  case_match; eexists; eauto.
Qed.

Lemma foldl_closestStep_elem (records : list R) (acc : option R) (r : R) :
  foldl (closestStep dateDue today) acc records = Some r →
  r ∈ records ∨ acc = Some r.
Proof.
  revert acc. induction records as [|x l IH]; intros acc; simpl; [by right|].
  intros [Hr|Hr]%IH; [left; by right|].
  destruct (closestStep_cases acc x) as (r' & Hstep & [->|Hacc]).
  - rewrite Hstep in Hr. injection Hr as ->. left. by left.
  - right. congruence.
Qed.

Lemma foldl_closestStep_Some (records : list R) (c : R) :
  is_Some (foldl (closestStep dateDue today) (Some c) records).
Proof.
  revert c. induction records as [|x l IH]; intros c; simpl; [by eexists|].
  destruct (closestStep_cases (Some c) x) as (r & -> & _). apply IH.
Qed.

Lemma find_isDueToday (records : list R) :
  hasDueDateToday dateDue today records = true →
  ∃ r, find (isDueToday dateDue today) records = Some r ∧ r ∈ records.
Proof.
  unfold hasDueDateToday. induction records as [|x l IH]; simpl; [done|].
  destruct (isDueToday dateDue today x); simpl.
  - intros _. exists x. split; [done|by left].
  - intros (r & Hr & Hin)%IH. exists r. split; [done|by right].
Qed.

Lemma recordToReturn_None (records : list R) :
  recordToReturn dateDue today records = None ↔ records = [].
Proof.
  unfold recordToReturn. split; [|by intros ->].
  destruct (hasDueDateToday dateDue today records) eqn:Hhas.
  - destruct (find_isDueToday records Hhas) as (r & -> & _). done.
  - destruct records as [|x l]; [done|]. unfold closestDueDate. simpl.
    destruct (closestStep_cases None x) as (r & -> & _).
    destruct (foldl_closestStep_Some l r) as [r' ->]. done.
Qed.

Lemma recordToReturn_elem (records : list R) (r : R) :
  recordToReturn dateDue today records = Some r → r ∈ records.
Proof.
  unfold recordToReturn.
  destruct (hasDueDateToday dateDue today records) eqn:Hhas.
  - destruct (find_isDueToday records Hhas) as (r' & -> & Hin). by intros [= <-].
  - intros [Hin|Hnone]%foldl_closestStep_elem; done.
Qed.

Lemma dueText_NoUpcoming (records : list R) :
  dueText dateDue today (recordToReturn dateDue today records) = NoUpcomingDueDate
  ↔ records = [].
Proof.
  rewrite <- recordToReturn_None.
  destruct (recordToReturn dateDue today records) as [r|]; simpl; [|done].
  destruct (isDueToday dateDue today r); split; done.
Qed.

(** A first record whose date does not parse is never replaced. *)
Lemma foldl_closestStep_invalid (rest : list R) (first : R) :
  parseFormattedDate (dateDue first) = None →
  hasDueDateToday dateDue today rest = false →
  foldl (closestStep dateDue today) (Some first) rest = Some first.
Proof.
  intros Hinvalid. unfold hasDueDateToday.
  induction rest as [|x l IH]; simpl; [done|].
  intros [Hx Hl]%orb_false_iff.
  unfold closestStep at 2. rewrite Hx, Hinvalid.
  destruct (parseFormattedDate (dateDue x)); simpl; rewrite ?andb_false_r;
    by apply IH.
Qed.

Lemma recordToReturn_invalid_first (first : R) (rest : list R) :
  parseFormattedDate (dateDue first) = None →
  hasDueDateToday dateDue today rest = false →
  recordToReturn dateDue today (first :: rest) = Some first
  ∧ dueText dateDue today (recordToReturn dateDue today (first :: rest))
    = DateText InvalidDate.
Proof.
  intros Hinvalid Hrest.
  assert (Hfirst : isDueToday dateDue today first = false).
  { unfold isDueToday. by rewrite Hinvalid. }
  assert (Hselect : recordToReturn dateDue today (first :: rest) = Some first).
  { unfold recordToReturn, hasDueDateToday in *. simpl. rewrite Hfirst, Hrest. simpl.
    unfold closestDueDate. simpl. unfold closestStep at 2. rewrite Hfirst.
    by apply foldl_closestStep_invalid. }
  rewrite Hselect. split; [done|]. simpl. by rewrite Hfirst, Hinvalid.
Qed.

(** The first record due today is found, whatever the other due dates
    are. *)
Lemma recordToReturn_first_due_today (records : list R) :
  hasDueDateToday dateDue today records = true →
  ∃ r before after,
    recordToReturn dateDue today records = Some r
    ∧ records = before ++ r :: after
    ∧ isDueToday dateDue today r = true
    ∧ (∀ r', r' ∈ before → isDueToday dateDue today r' = false)
    ∧ dueText dateDue today (recordToReturn dateDue today records) = TODAY.
Proof.
  intros Hhas. unfold recordToReturn. rewrite Hhas. unfold hasDueDateToday in Hhas.
  induction records as [|x l IH]; simpl in *; [done|].
  destruct (isDueToday dateDue today x) eqn:Hx.
  - exists x, [], l. simpl. rewrite Hx.
    split; [done|]. split; [done|]. split; [done|]. split; [|done].
    by intros ? ?%elem_of_nil.
  - destruct (IH Hhas) as (r & before & after & Hfind & -> & Hr & Hbefore & Htext).
    exists r, (x :: before), after.
    split; [done|]. split; [done|]. split; [done|]. split; [|done].
    intros r' [->|Hr']%elem_of_cons; [done|by apply Hbefore].
Qed.

(** Records whose due date does not parse, after a first record whose date
    does: the scan passes over them. *)
Local Abbreviation parses := (Overview.parses dateDue).

Lemma isDueToday_unparsable (r : R) : ¬ parses r → isDueToday dateDue today r = false.
Proof.
  unfold parses, isDueToday. destruct (parseFormattedDate (dateDue r)); [|done].
  intros []. by eexists.
Qed.

Lemma hasDueDateToday_parsing (records : list R) :
  hasDueDateToday dateDue today (filter parses records)
  = hasDueDateToday dateDue today records.
Proof.
  unfold hasDueDateToday. induction records as [|x l IH]; [done|].
  rewrite filter_cons. case_decide as Hx; simpl; rewrite IH; [done|].
  by rewrite isDueToday_unparsable.
Qed.

Lemma foldl_closestStep_parsing (records : list R) (c : R) :
  foldl (closestStep dateDue today) (Some c) (filter parses records)
  = foldl (closestStep dateDue today) (Some c) records.
Proof.
  revert c. induction records as [|x l IH]; intros c; [done|].
  rewrite filter_cons. case_decide as Hx; simpl.
  - destruct (closestStep_cases (Some c) x) as (r & -> & _). apply IH.
  - rewrite IH. f_equal. unfold closestStep.
    rewrite isDueToday_unparsable by done.
    unfold parses in Hx. destruct (parseFormattedDate (dateDue x)); [|done].
    destruct Hx. by eexists.
Qed.

Lemma recordToReturn_parsing (first : R) (rest : list R) :
  parses first →
  recordToReturn dateDue today (filter parses (first :: rest))
  = recordToReturn dateDue today (first :: rest).
Proof.
  intros Hfirst. unfold recordToReturn. rewrite hasDueDateToday_parsing.
  destruct (hasDueDateToday dateDue today (first :: rest)) eqn:Hhas.
  - clear Hfirst. unfold hasDueDateToday in Hhas.
    induction (first :: rest) as [|x l IH]; [done|].
    rewrite filter_cons. simpl in Hhas. case_decide as Hx; simpl.
    + destruct (isDueToday dateDue today x); [done|]. by apply IH.
    + rewrite isDueToday_unparsable in Hhas |- * by done. by apply IH.
  - rewrite filter_cons, decide_True by done. unfold closestDueDate. simpl.
    destruct (closestStep_cases None first) as (r & -> & _).
    apply foldl_closestStep_parsing.
Qed.

Lemma parses_dueOn (r : R) :
  parses r → dueOn dateDue (fun r => dayOfText (dateDue r)) r.
Proof.
  unfold parses, dueOn, dayOfText. intros [time Htime]. rewrite Htime.
  destruct (parseFormattedDate_midnight _ _ Htime) as [d ->].
  by rewrite toDateString_midnight.
Qed.

Lemma recordToReturn_upcoming_parsing (first : R) (rest : list R) :
  let day := fun r => dayOfText (dateDue r) in
  parses first →
  hasDueDateToday dateDue today (first :: rest) = false →
  (∃ r', r' ∈ first :: rest ∧ parses r' ∧ upcoming today day r') →
  ∃ r,
    recordToReturn dateDue today (first :: rest) = Some r
    ∧ firstEarliestUpcoming today day r (filter parses (first :: rest))
    ∧ dueText dateDue today (recordToReturn dateDue today (first :: rest))
      = DateText (OnDay (day r)).
Proof.
  intros day Hfirst Hhas (r' & Hin & Hparses & Hupcoming).
  rewrite <- (recordToReturn_parsing first rest Hfirst).
  apply recordToReturn_upcoming.
  - apply Forall_forall. intros r [Hr _]%list_elem_of_filter. by apply parses_dueOn.
  - by rewrite hasDueDateToday_parsing.
  - exists r'. split; [|done]. by apply list_elem_of_filter.
Qed.
End SelectionExtra.

(** X3: the selection returns a record of the list whenever there is one.
    For projects and for tasks alike, the selected record is a member of the
    list, no record is selected only for the empty list, and "No upcoming due
    date" is shown exactly for the empty list. *)
Theorem selection_is_a_listed_record (today : Z) :
  (∀ projects : list Project,
      (projectToReturn today projects = None ↔ projects = [])
      ∧ (∀ p, projectToReturn today projects = Some p → p ∈ projects)
      ∧ (projectDueText today projects = NoUpcomingDueDate ↔ projects = []))
  ∧ (∀ tasks : list Task,
      (taskToReturn today tasks = None ↔ tasks = [])
      ∧ (∀ t, taskToReturn today tasks = Some t → t ∈ tasks)
      ∧ (taskDueText today tasks = NoUpcomingDueDate ↔ tasks = [])).
Proof.
  split; intros l.
  - split; [apply recordToReturn_None|]. split; [apply recordToReturn_elem|].
    apply dueText_NoUpcoming.
  - split; [apply recordToReturn_None|]. split; [apply recordToReturn_elem|].
    apply dueText_NoUpcoming.
Qed.

(** X4: a first record whose due date does not parse blocks the scan.  When
    the first task's (project's) date text is no valid date and no later
    record is due today, that first record is selected whatever the later
    dates are, and the card shows "Invalid Date". *)
Theorem unparsable_first_date_is_selected (today : Z) :
  (∀ (first : Task) (rest : list Task),
      parseFormattedDate (task_dateDue first) = None →
      hasDueDateToday task_dateDue today rest = false →
      taskToReturn today (first :: rest) = Some first
      ∧ taskDueText today (first :: rest) = DateText InvalidDate)
  ∧ (∀ (first : Project) (rest : list Project),
      parseFormattedDate (project_dateDue first) = None →
      hasDueDateToday project_dateDue today rest = false →
      projectToReturn today (first :: rest) = Some first
      ∧ projectDueText today (first :: rest) = DateText InvalidDate).
Proof. split; intros first rest; apply recordToReturn_invalid_first. Qed.

Lemma unparsable_first_date_witness :
  let today := (20759 * msPerDay + 34200000)%Z in
  let first := mkTask Pending "2026-11-09" in
  let rest := [mkTask Created "Nov 9 2026"; mkTask Pending "Nov 3 2026"] in
  parseFormattedDate (task_dateDue first) = None
  ∧ hasDueDateToday task_dateDue today rest = false
  ∧ taskToReturn today (first :: rest) = Some first
  ∧ taskDueText today (first :: rest) = DateText InvalidDate.
Proof.
  intros today first rest.
  assert (Hinvalid : parseFormattedDate (task_dateDue first) = None)
    by (vm_compute; reflexivity).
  assert (Hrest : hasDueDateToday task_dateDue today rest = false)
    by (vm_compute; reflexivity).
  split; [exact Hinvalid|]. split; [exact Hrest|].
  exact (proj1 (unparsable_first_date_is_selected today) first rest Hinvalid Hrest).
Defined.

(** X5: a record due today is selected outright.  When some record of the
    list is due today, the first such record is selected - every record
    before it has another date string, parsable or not - and the card reads
    "TODAY".  Nothing is assumed of the other due-date texts. *)
Theorem record_due_today_is_selected (today : Z) :
  (∀ tasks : list Task,
      hasDueDateToday task_dateDue today tasks = true →
      ∃ r before after,
        taskToReturn today tasks = Some r
        ∧ tasks = before ++ r :: after
        ∧ toDateString (parseFormattedDate (task_dateDue r)) = toDateString (Some today)
        ∧ (∀ r', r' ∈ before →
             toDateString (parseFormattedDate (task_dateDue r'))
             ≠ toDateString (Some today))
        ∧ taskDueText today tasks = TODAY)
  ∧ (∀ projects : list Project,
      hasDueDateToday project_dateDue today projects = true →
      ∃ r before after,
        projectToReturn today projects = Some r
        ∧ projects = before ++ r :: after
        ∧ toDateString (parseFormattedDate (project_dateDue r))
          = toDateString (Some today)
        ∧ (∀ r', r' ∈ before →
             toDateString (parseFormattedDate (project_dateDue r'))
             ≠ toDateString (Some today))
        ∧ projectDueText today projects = TODAY).
Proof.
  split; intros l Hhas.
  - destruct (recordToReturn_first_due_today task_dateDue today l Hhas)
      as (r & before & after & Hfind & Hsplit & Hr & Hbefore & Htext).
    exists r, before, after. split; [done|]. split; [done|].
    split; [by apply bool_decide_eq_true in Hr|]. split; [|done].
    intros r' Hr'. apply (proj1 (bool_decide_eq_false _)). by apply Hbefore.
  - destruct (recordToReturn_first_due_today project_dateDue today l Hhas)
      as (r & before & after & Hfind & Hsplit & Hr & Hbefore & Htext).
    exists r, before, after. split; [done|]. split; [done|].
    split; [by apply bool_decide_eq_true in Hr|]. split; [|done].
    intros r' Hr'. apply (proj1 (bool_decide_eq_false _)). by apply Hbefore.
Qed.

Lemma record_due_today_witness :
  let today := (20759 * msPerDay + 34200000)%Z in
  let tasks := [mkTask Pending "2026-11-09"; mkTask Pending "Nov 9 2026";
                mkTask Created "Nov 2 2026"; mkTask InProgress "Nov 2 2026"] in
  hasDueDateToday task_dateDue today tasks = true
  ∧ ∃ r before after,
      taskToReturn today tasks = Some r
      ∧ tasks = before ++ r :: after
      ∧ toDateString (parseFormattedDate (task_dateDue r)) = toDateString (Some today)
      ∧ (∀ r', r' ∈ before →
           toDateString (parseFormattedDate (task_dateDue r'))
           ≠ toDateString (Some today))
      ∧ taskDueText today tasks = TODAY.
Proof.
  intros today tasks.
  assert (Hhas : hasDueDateToday task_dateDue today tasks = true)
    by (vm_compute; reflexivity).
  split; [exact Hhas|].
  exact (proj1 (record_due_today_is_selected today) tasks Hhas).
Defined.

(** X6: the earliest upcoming record is selected when the first due date
    parses.  Let the first record of the list have a due-date text that
    parses, let no record be due today, and let some record with a parsable
    date be due after today.  Then the record selected is the
    first-encountered one with the earliest day among the upcoming records
    whose date parses - records with an unparsable date are passed over -
    and the card shows the date string of its day. *)
Theorem earliest_upcoming_is_selected (today : Z) :
  (∀ (first : Task) (rest : list Task),
      let day := fun t => dayOfText (task_dateDue t) in
      let parses := parses task_dateDue in
      parses first →
      hasDueDateToday task_dateDue today (first :: rest) = false →
      (∃ r', r' ∈ first :: rest ∧ parses r' ∧ upcoming today day r') →
      ∃ r,
        taskToReturn today (first :: rest) = Some r
        ∧ firstEarliestUpcoming today day r (filter parses (first :: rest))
        ∧ taskDueText today (first :: rest) = DateText (OnDay (day r)))
  ∧ (∀ (first : Project) (rest : list Project),
      let day := fun p => dayOfText (project_dateDue p) in
      let parses := parses project_dateDue in
      parses first →
      hasDueDateToday project_dateDue today (first :: rest) = false →
      (∃ r', r' ∈ first :: rest ∧ parses r' ∧ upcoming today day r') →
      ∃ r,
        projectToReturn today (first :: rest) = Some r
        ∧ firstEarliestUpcoming today day r (filter parses (first :: rest))
        ∧ projectDueText today (first :: rest) = DateText (OnDay (day r))).
Proof.
  split; intros first rest day parses' Hfirst Hhas Hupcoming.
  - exact (recordToReturn_upcoming_parsing task_dateDue today first rest
             Hfirst Hhas Hupcoming).
  - exact (recordToReturn_upcoming_parsing project_dateDue today first rest
             Hfirst Hhas Hupcoming).
Qed.

Lemma earliest_upcoming_witness :
  let today := (20759 * msPerDay + 34200000)%Z in
  let day := fun t => dayOfText (task_dateDue t) in
  let parses := parses task_dateDue in
  let first := mkTask Pending "Oct 24 2026" in
  let rest := [mkTask Pending "2026-11-03"; mkTask Pending "Nov 16 2026";
               mkTask Created "Nov 9 2026"; mkTask InProgress "Nov 9 2026"] in
  parses first
  ∧ hasDueDateToday task_dateDue today (first :: rest) = false
  ∧ (∃ r', r' ∈ first :: rest ∧ parses r' ∧ upcoming today day r')
  ∧ ∃ r,
      taskToReturn today (first :: rest) = Some r
      ∧ firstEarliestUpcoming today day r (filter parses (first :: rest))
      ∧ taskDueText today (first :: rest) = DateText (OnDay (day r)).
Proof.
  intros today day parses' first rest.
  assert (Hfirst : parses' first) by (vm_compute; by eexists).
  assert (Hhas : hasDueDateToday task_dateDue today (first :: rest) = false)
    by (vm_compute; reflexivity).
  assert (Hupcoming : ∃ r', r' ∈ first :: rest ∧ parses' r' ∧ upcoming today day r').
  { exists (mkTask Created "Nov 9 2026"). split; [|split].
    - right. right. right. by left.
    - vm_compute. by eexists.
    - vm_compute. reflexivity. }
  split; [exact Hfirst|]. split; [exact Hhas|]. split; [exact Hupcoming|].
  exact (proj1 (earliest_upcoming_is_selected today) first rest Hfirst Hhas Hupcoming).
Defined.

(** ** Parsing the due-date text *)

Lemma months_lookup (month : string) (index : Z) :
  months !! month = Some index → (0 ≤ index ≤ 11)%Z.
Proof.
  unfold months. intros Hin%elem_of_list_to_map_2.
  repeat (apply elem_of_cons in Hin as [[= _ ->]|Hin]; [lia|]).
  by apply elem_of_nil in Hin.
Qed.

(** X7: a due-date text gives a valid date only if it has at least three
    space-separated parts and the first is one of the twelve month
    abbreviations; and a valid result is always a local midnight, the start
    of the day its date string names.  Anything else - fewer parts, another
    month spelling - is "Invalid Date". *)
Theorem parseFormattedDate_valid_shape (text : string) (time : Z) :
  parseFormattedDate text = Some time →
  (3 ≤ length (split " " text))%nat
  ∧ (∃ month index,
        split " " text !! 0%nat = Some month
        ∧ months !! month = Some index ∧ (0 ≤ index ≤ 11)%Z)
  ∧ ∃ d, time = (d * msPerDay)%Z ∧ toDateString (Some time) = OnDay d.
Proof.
  intros Hparse.
  destruct (parseFormattedDate_midnight text time Hparse) as [d ->].
  split; [|split].
  - revert Hparse. unfold parseFormattedDate.
    destruct (split " " text !! 2%nat) as [year|] eqn:Hyear.
    + intros _. apply lookup_lt_Some in Hyear. lia.
    + done.
  - revert Hparse. unfold parseFormattedDate, newDate.
    destruct (parseInt (split " " text !! 2%nat)) as [y|]; [|done].
    destruct (split " " text !! 0%nat) as [month|]; [|done]. simpl.
    destruct (months !! month) as [index|] eqn:Hmonth; [|done].
    intros _. exists month, index. repeat split; try done;
      by apply (months_lookup month index).
  - exists d. split; [done|]. apply toDateString_midnight.
Qed.

Lemma parseFormattedDate_witness :
  parseFormattedDate "Feb 29 2028" = Some (21243 * msPerDay)%Z
  ∧ (3 ≤ length (split " " "Feb 29 2028"))%nat
  ∧ (∃ month index,
        split " " "Feb 29 2028" !! 0%nat = Some month
        ∧ months !! month = Some index ∧ (0 ≤ index ≤ 11)%Z)
  ∧ ∃ d, (21243 * msPerDay)%Z = (d * msPerDay)%Z
         ∧ toDateString (Some (21243 * msPerDay)%Z) = OnDay d.
Proof.
  assert (Hparse : parseFormattedDate "Feb 29 2028" = Some (21243 * msPerDay)%Z)
    by (vm_compute; reflexivity).
  split; [exact Hparse|].
  exact (parseFormattedDate_valid_shape "Feb 29 2028" _ Hparse).
Defined.

(** ** The page component *)

(** On records that all have a due date the functions with the throw are
    the ones without it. *)
Section FetchedProps.
Context {R : Type}.
Variable dateDue : R → string.
Variable today : Z.

Lemma isDueTodayOrThrow_Dated (r : R) :
  isDueTodayOrThrow dateDue today (Dated r) = Some (isDueToday dateDue today r).
Proof. done. Qed.

Lemma someOrThrow_Dated (records : list R) :
  someOrThrow dateDue today (Dated <$> records)
  = Some (hasDueDateToday dateDue today records).
Proof.
  unfold hasDueDateToday. induction records as [|x l IH]; [done|].
  rewrite fmap_cons. cbn [someOrThrow existsb]. rewrite isDueTodayOrThrow_Dated.
  destruct (isDueToday dateDue today x); [done|exact IH].
Qed.

Lemma findOrThrow_Dated (records : list R) :
  findOrThrow dateDue today (Dated <$> records)
  = Some (Dated <$> find (isDueToday dateDue today) records).
Proof.
  induction records as [|x l IH]; [done|].
  rewrite fmap_cons. cbn [findOrThrow find]. rewrite isDueTodayOrThrow_Dated.
  destruct (isDueToday dateDue today x); [done|exact IH].
Qed.

Lemma closestStepOrThrow_Dated (closest : option R) (current : R) :
  closestStepOrThrow dateDue today (Dated <$> closest) (Dated current)
  = Some (Dated <$> closestStep dateDue today closest current).
Proof.
  unfold closestStepOrThrow, closestStep, isDueToday.
  cbn [parseDueDate mbind option_bind].
  case_bool_decide; [done|].
  destruct closest as [closestRecord|]; [|done].
  cbn [fmap option_fmap option_map parseDueDate mbind option_bind]. by case_match.
Qed.

Lemma closestDueDateOrThrow_Dated (records : list R) :
  closestDueDateOrThrow dateDue today (Dated <$> records)
  = Some (Dated <$> closestDueDate dateDue today records).
Proof.
  unfold closestDueDateOrThrow, closestDueDate.
  change (Some None) with (Some (Dated <$> (None : option R))).
  generalize (None : option R).
  induction records as [|x l IH]; intros acc; [done|].
  rewrite fmap_cons. cbn [foldl]. rewrite <- IH. f_equal.
  apply closestStepOrThrow_Dated.
Qed.

Lemma recordToReturnOrThrow_Dated (records : list R) :
  recordToReturnOrThrow dateDue today (Dated <$> records)
  = Some (Dated <$> recordToReturn dateDue today records).
Proof.
  unfold recordToReturnOrThrow, recordToReturn.
  rewrite someOrThrow_Dated, closestDueDateOrThrow_Dated, findOrThrow_Dated. simpl.
  by destruct (hasDueDateToday dateDue today records).
Qed.

Lemma dueTextOrThrow_Dated (r : option R) :
  dueTextOrThrow dateDue today (Dated <$> r) = Some (dueText dateDue today r).
Proof. by destruct r. Qed.

(** One record without a due date makes the reduce throw: it parses the
    due date of every record. *)
Lemma closestDueDateOrThrow_Undated (records : list (Fetched R)) (status : Status) :
  Undated status ∈ records → closestDueDateOrThrow dateDue today records = None.
Proof.
  unfold closestDueDateOrThrow. generalize (Some (None : option (Fetched R))).
  induction records as [|x l IH]; intros acc; [by intros ?%elem_of_nil|].
  intros [<-|Hin]%elem_of_cons; [|by apply IH].
  simpl. assert (Hthrown : (closest ← acc;
                            closestStepOrThrow dateDue today closest (Undated status))
                           = None) by (by destruct acc).
  rewrite Hthrown. clear. induction l as [|x l IH]; [done|]. apply IH.
Qed.

Lemma recordToReturnOrThrow_Undated (records : list (Fetched R)) (status : Status) :
  Undated status ∈ records → recordToReturnOrThrow dateDue today records = None.
Proof.
  intros Hin. unfold recordToReturnOrThrow.
  rewrite (closestDueDateOrThrow_Undated records status Hin).
  by destruct (someOrThrow dateDue today records).
Qed.

Lemma Dated_or_Undated (records : list (Fetched R)) :
  (∃ dated, records = Dated <$> dated) ∨ (∃ status, Undated status ∈ records).
Proof.
  induction records as [|[r|status] l [[dated ->]|[status' Hin]]].
  - left. by exists [].
  - left. by exists (r :: dated).
  - right. exists status'. by right.
  - right. exists status. by left.
  - right. exists status. by left.
Qed.
End FetchedProps.

Lemma fetchedStatus_Dated {R} (status : R → Status) (records : list R) :
  map (fun r => status_key (fetchedStatus status r)) (Dated <$> records)
  = map (fun r => status_key (status r)) records.
Proof. induction records as [|x l IH]; [done|]. rewrite fmap_cons. cbn [map]. by rewrite IH. Qed.

(** The dashboard of a user whose records all have a due date. *)
Lemma render_Dated (today : Z) (meData : MeData) (user : Me)
    (projects : list Project) (tasks : list Task)
    (userProjects : option (list (Fetched Project))) :
  me meData = Some user →
  render today meData (mkUserData userProjects (Some (Dated <$> tasks)))
    (Dated <$> projects)
  = Some {| welcomeName := firstName user;
            nextTaskDue := taskDueText today tasks;
            nextProjectDue := projectDueText today projects;
            projectChart := projectChartData projects;
            totalProjects := totalProjectsCount projects;
            taskChart := taskChartData tasks;
            totalTasks := totalTasksCount tasks;
            tasksToComplete := incompleteTasksCount tasks;
            pluralSuffix := if (incompleteTasksCount tasks =? 1)%nat then "" else "s";
            gaugeValue := completedTasksCount tasks;
            gaugeValueMax := totalTasksCount tasks |}.
Proof.
  intros Hme. unfold render. simpl.
  rewrite !recordToReturnOrThrow_Dated. simpl. rewrite Hme. simpl.
  rewrite !dueTextOrThrow_Dated. simpl.
  rewrite !fetchedStatus_Dated, !length_fmap. done.
Qed.

Lemma render_None (today : Z) (meData : MeData) (userData : UserData)
    (projects : list (Fetched Project)) :
  render today meData userData projects = None ↔
  user_tasks userData = None
  ∨ me meData = None
  ∨ (∃ status, Undated status ∈ projects)
  ∨ (∃ tasks status, user_tasks userData = Some tasks ∧ Undated status ∈ tasks).
Proof.
  destruct userData as [userProjects [tasks|]]; simpl; [|by split; [left|]].
  split.
  - destruct (me meData) as [user|] eqn:Hme; [|by right; left].
    destruct (Dated_or_Undated projects) as [[datedProjects ->]|Hprojects];
      [|by right; right; left].
    destruct (Dated_or_Undated tasks) as [[datedTasks ->]|[status Htasks]];
      [|by right; right; right; exists tasks, status].
    by rewrite (render_Dated today meData user).
  - unfold render. simpl.
    intros [?|[Hme|[[status Hin]|(tasks' & status & [= <-] & Hin)]]]; [done|..].
    + rewrite Hme.
      destruct (recordToReturnOrThrow project_dateDue today projects); [|done].
      simpl. by destruct (recordToReturnOrThrow task_dateDue today tasks).
    + by rewrite (recordToReturnOrThrow_Undated _ _ _ status Hin).
    + rewrite (recordToReturnOrThrow_Undated _ _ tasks status Hin).
      by destruct (recordToReturnOrThrow project_dateDue today projects).
Qed.

#[local] Set Warnings "-clear-no-such-hyp".

(** X8: what the page shows.  "Loading..." is shown exactly when one of the
    two queries is loading, whatever else holds; "Error fetching data..."
    exactly when none is loading and one has an error.  The dashboard is
    shown exactly when, besides, both results carry data with [me], the
    user, its projects and its tasks present and every project and task has
    a due date; it then shows the tallies, counts and due-date texts of
    these records.  The early returns do not cover a missing task list, a
    missing [me] or a record without a due date: with the projects present,
    the component then reads a property of [null] and throws. *)
Theorem MyOverview_views (today : Z) (meQuery : QueryResult MeData)
    (projectsQuery : QueryResult ProjectsData) :
  let view := MyOverview today meQuery projectsQuery in
  let settled :=
    loading meQuery = false ∧ loading projectsQuery = false
    ∧ error meQuery = false ∧ error projectsQuery = false in
  (view = LoadingView ↔ loading meQuery = true ∨ loading projectsQuery = true)
  ∧ (view = ErrorFetchingView ↔
       loading meQuery = false ∧ loading projectsQuery = false
       ∧ (error meQuery = true ∨ error projectsQuery = true))
  ∧ (∀ dashboard,
       view = DashboardView dashboard ↔
       settled
       ∧ ∃ user tasks projects,
           data meQuery = Some (mkMeData (Some user))
           ∧ data projectsQuery
             = Some (mkProjectsData
                       (Some (mkUserData (Some (Dated <$> projects))
                                (Some (Dated <$> tasks)))))
           ∧ dashboard
             = {| welcomeName := firstName user;
                  nextTaskDue := taskDueText today tasks;
                  nextProjectDue := projectDueText today projects;
                  projectChart := projectChartData projects;
                  totalProjects := totalProjectsCount projects;
                  taskChart := taskChartData tasks;
                  totalTasks := totalTasksCount tasks;
                  tasksToComplete := incompleteTasksCount tasks;
                  pluralSuffix :=
                    if (incompleteTasksCount tasks =? 1)%nat then "" else "s";
                  gaugeValue := completedTasksCount tasks;
                  gaugeValueMax := totalTasksCount tasks |})
  ∧ (view = TypeErrorThrown ↔
       settled
       ∧ ∃ meData tasks projects,
           data meQuery = Some meData
           ∧ data projectsQuery
             = Some (mkProjectsData (Some (mkUserData (Some projects) tasks)))
           ∧ (tasks = None
              ∨ me meData = None
              ∨ (∃ status, Undated status ∈ projects)
              ∨ (∃ records status, tasks = Some records ∧ Undated status ∈ records))).
Proof.
  intros view settled. subst view settled. unfold MyOverview.
  destruct meQuery as [[|] [|] meData], projectsQuery as [[|] [|] projectsData];
    simpl;
    try by (split; [|split; [|split]]; [| |intros dashboard|]; naive_solver).
  destruct meData as [meData|], projectsData as [[[[[projects|] tasks]|]]|]; simpl;
    try by (split; [|split; [|split]]; [| |intros dashboard|]; naive_solver).
  destruct (render today meData (mkUserData (Some projects) tasks) projects)
    as [rendered|] eqn:Hrender.
  - split; [naive_solver|]. split; [naive_solver|]. split.
    + intros dashboard. split.
      * intros [= <-].
        assert (Hsome : render today meData (mkUserData (Some projects) tasks) projects
                        ≠ None) by (by rewrite Hrender).
        rewrite render_None in Hsome. simpl in Hsome.
        destruct tasks as [tasks|]; [|by destruct Hsome; left].
        destruct meData as [[user|]]; [|by destruct Hsome; right; left].
        destruct (Dated_or_Undated projects) as [[datedProjects ->]|Hprojects];
          [|by destruct Hsome; right; right; left].
        destruct (Dated_or_Undated tasks) as [[datedTasks ->]|[status Htasks]];
          [|by destruct Hsome; right; right; right; exists tasks, status].
        split; [done|]. exists user, datedTasks, datedProjects.
        split; [done|]. split; [done|].
        rewrite (render_Dated today _ user) in Hrender by done. by injection Hrender.
      * intros (_ & user & datedTasks & datedProjects & [= ->] & [= -> ->] & ->).
        rewrite (render_Dated today _ user) in Hrender by done. by injection Hrender as <-.
    + split; [done|].
      intros (_ & meData' & tasks' & projects' & [= <-] & [= <- <-] & Hnone).
      assert (Hthrown : render today meData (mkUserData (Some projects) tasks) projects
                        = None) by (by apply render_None).
      congruence.
  - split; [naive_solver|]. split; [naive_solver|]. split.
    + intros dashboard. split; [done|].
      intros (_ & user & datedTasks & datedProjects & [= ->] & [= -> ->] & _).
      by rewrite (render_Dated today _ user) in Hrender.
    + split; [|done]. intros _. split; [done|].
      exists meData, tasks, projects. split; [done|]. split; [done|].
      by apply render_None in Hrender.
Qed.

End OverviewExtra.

(** * Further properties of the resolvers *)

Module ResolverExtra.
Import Store ResolverProps.

Lemma populate_elem {A} (coll : gmap ObjectId A) (refs : list ObjectId) id doc :
  (id, doc) ∈ populate coll refs ↔ id ∈ refs ∧ coll !! id = Some doc.
Proof.
  unfold populate. rewrite list_elem_of_omap. split.
  - intros (ref & Href & Hdoc). destruct (coll !! ref) as [doc'|] eqn:Hlookup; [|done].
    simpl in Hdoc. by injection Hdoc as <- <-.
  - intros [Href Hdoc]. exists id. split; [done|]. by rewrite Hdoc.
Qed.

(** The example store satisfies the discipline of task identifiers. *)
Lemma scenario_generated : generated Scenario.db.
Proof.
  constructor; simpl.
  - intros id [task [<- _]%lookup_singleton_Some]. lia.
  - intros id project [_ <-]%lookup_singleton_Some. simpl.
    apply Forall_singleton. lia.
  - intros id user [[_ <-]|[_ [_ <-]%lookup_singleton_Some]]%lookup_insert_Some;
      simpl; [apply Forall_singleton; lia|apply Forall_nil_2].
Qed.

(** ** me *)

(** X9: [me] reports a missing session with the authentication error
    itself.  Without a session user it throws the sentinel, unwrapped, and
    writes nothing; with one it never throws and writes nothing, returns
    [null] exactly when no user has that identifier, and otherwise returns
    that user with, as populated tasks, exactly the stored tasks its task
    list references. *)
Theorem me_requires_session (db : DB) :
  Part000Rest.me (mkContext None) db = (Threw AuthenticationError, db)
  ∧ ∀ id,
      ∃ result,
        Part000Rest.me (mkContext (Some id)) db = (Returned result, db)
        ∧ (result = None ↔ users db !! id = None)
        ∧ ∀ populated,
            result = Some populated →
            ∃ user,
              users db !! id = Some user
              ∧ Resolvers.populated_user populated = (id, user)
              ∧ ∀ taskId task,
                  (taskId, task) ∈ Resolvers.populated_tasks populated ↔
                  taskId ∈ user_tasks user ∧ tasks db !! taskId = Some task.
Proof.
  split; [done|]. intros id. unfold Part000Rest.me, Part000Rest.find_one. run.
  eexists. split; [done|].
  destruct (users db !! id) as [user|]; simpl; (split; [done|]); [|done].
  intros populated [= <-]. exists user. split; [done|]. split; [done|].
  intros taskId task. apply populate_elem.
Qed.

(** ** tasks after addTask *)

Lemma tasks_found (user : ObjectId) (db : DB) :
  ∃ found,
    Part000.tasks (mkContext (Some user)) db = (Returned found, db)
    ∧ ∀ id task,
        (id, task) ∈ found.*1 ↔ tasks db !! id = Some task ∧ assignedUser task = Some user.
Proof.
  unfold Part000.tasks. run. eexists. split; [done|].
  rewrite fst_pairing. intros id task.
  rewrite list_elem_of_filter, elem_of_map_to_list. simpl. tauto.
Qed.

(** X10: a task created by [addTask] of [part_000] is what its assignee
    then sees.  After a successful call, the [tasks] query run with the
    assigned user's session returns the created task, and run with any other
    user's session it does not return a task with the new identifier. *)
Theorem addTask_then_tasks (sentinelMessage : string)
    (projectId : ObjectId) (input : TaskInput) (db : DB) result db' :
  Part000.addTask sentinelMessage projectId input db = (Returned result, db') →
  ∃ userId,
    assignedUserId input = Some userId
    ∧ (∃ found,
          Part000.tasks (mkContext (Some userId)) db' = (Returned found, db')
          ∧ (result_id result, result_task result) ∈ found.*1)
    ∧ ∀ other, other ≠ userId →
        ∃ found,
          Part000.tasks (mkContext (Some other)) db' = (Returned found, db')
          ∧ result_id result ∉ found.*1.*1.
Proof.
  intros Hrun.
  destruct (addTask_linked_returned _ _ _ _ _ _ Hrun)
    as (userId & project & user & Hproject & Hassigned & Huser).
  rewrite (addTask_linked_run sentinelMessage _ _ _ _ _ _ Hproject Hassigned Huser)
    in Hrun.
  injection Hrun as <- <-. simpl. exists userId. split; [done|]. split.
  - destruct (tasks_found userId
        (mkDB (<[userId := push_task_to_user (nextId db) user]> (users db)) (teams db)
           (<[projectId := push_task_to_project (nextId db) project]> (projects db))
           (<[nextId db := set_task_assignedUser userId (Task_of_input input)]>
              (<[nextId db := Task_of_input input]> (tasks db)))
           (S (nextId db)))) as (found & Hfound & Hspec).
    exists found. split; [done|]. apply Hspec. simpl.
    by rewrite lookup_insert_eq.
  - intros other Hother.
    destruct (tasks_found other
        (mkDB (<[userId := push_task_to_user (nextId db) user]> (users db)) (teams db)
           (<[projectId := push_task_to_project (nextId db) project]> (projects db))
           (<[nextId db := set_task_assignedUser userId (Task_of_input input)]>
              (<[nextId db := Task_of_input input]> (tasks db)))
           (S (nextId db)))) as (found & Hfound & Hspec).
    exists found. split; [done|].
    intros ((id & task) & Hid & Hin)%list_elem_of_fmap. simpl in Hid. subst id.
    apply Hspec in Hin as [Hlookup Hassignee]. simpl in Hlookup.
    rewrite lookup_insert_eq in Hlookup. injection Hlookup as <-.
    simpl in Hassignee. congruence.
Qed.

Lemma addTask_then_tasks_witness :
  ∃ result db',
    Part000.addTask "" 4 Scenario.newTask Scenario.db = (Returned result, db')
    ∧ ∃ userId,
        assignedUserId Scenario.newTask = Some userId
        ∧ (∃ found,
              Part000.tasks (mkContext (Some userId)) db' = (Returned found, db')
              ∧ (result_id result, result_task result) ∈ found.*1)
        ∧ ∀ other, other ≠ userId →
            ∃ found,
              Part000.tasks (mkContext (Some other)) db' = (Returned found, db')
              ∧ result_id result ∉ found.*1.*1.
Proof.
  eexists _, _. split; [vm_compute; reflexivity|].
  apply (addTask_then_tasks "" 4 Scenario.newTask Scenario.db).
  vm_compute. reflexivity.
Defined.

(** ** updateUser and updateTask *)

(** X11: how [updateUser] stores a password.  For an existing user and a
    patch with a password: [part_000] stores the bcrypt hash (cost 10) of a
    non-empty password and an empty password as it is; [resolvers.js] stores
    the password exactly as supplied.  In both files every other field of the
    patch is stored as given, fields the patch does not name keep their
    value, and the user's project, task and team references are untouched. *)
Theorem updateUser_stored_fields (bcrypt_hash : string → nat → string)
    (userId : ObjectId) (input : UserInput) (db : DB) (user : User) (password : string) :
  users db !! userId = Some user →
  userInput_fields input !! "password" = Some password →
  let patched k := match userInput_fields input !! k with
                   | Some v => Some v
                   | None => user_fields user !! k
                   end in
  (∃ user',
      users (Part000.updateUser bcrypt_hash userId input db).2 !! userId = Some user'
      ∧ user_fields user' !! "password"
        = Some (if decide (password = "") then "" else bcrypt_hash password 10)
      ∧ (∀ k, k ≠ "password" → user_fields user' !! k = patched k)
      ∧ user_projects user' = user_projects user
      ∧ user_tasks user' = user_tasks user
      ∧ user_team user' = user_team user)
  ∧ (∃ user',
        users (Resolvers.updateUser userId input db).2 !! userId = Some user'
        ∧ user_fields user' !! "password" = Some password
        ∧ (∀ k, user_fields user' !! k = patched k)
        ∧ user_projects user' = user_projects user
        ∧ user_tasks user' = user_tasks user
        ∧ user_team user' = user_team user).
Proof.
  intros Huser Hpassword patched.
  unfold Part000.updateUser, Resolvers.updateUser, User_findOneAndUpdate, User_findById,
    set_users.
  run. rewrite !lookup_alter_eq, Huser. simpl. split.
  - eexists. split; [done|]. simpl. unfold Part000.rehash. rewrite Hpassword.
    destruct (decide (password = "")) as [->|Hnonempty].
    + split; [by rewrite lookup_union_patch, Hpassword|]. split; [|done].
      intros k Hk. apply lookup_union_patch.
    + split; [by rewrite lookup_union_patch, lookup_insert_eq|]. split; [|done].
      intros k Hk. unfold patched.
      by rewrite lookup_union_patch, lookup_insert_ne.
  - eexists. split; [done|]. simpl.
    split; [by rewrite lookup_union_patch, Hpassword|]. split; [|done].
    intros k. apply lookup_union_patch.
Qed.

Lemma updateUser_stored_fields_witness :
  users Scenario.db !! 2 = Some Scenario.ada
  ∧ userInput_fields Scenario.rename !! "password" = Some "byron"
  ∧ (∃ user',
        users (Part000.updateUser Scenario.bcrypt_hash 2 Scenario.rename Scenario.db).2 !! 2
        = Some user'
        ∧ user_fields user' !! "password" = Some "hash(byron)")
  ∧ (∃ user',
        users (Resolvers.updateUser 2 Scenario.rename Scenario.db).2 !! 2 = Some user'
        ∧ user_fields user' !! "password" = Some "byron").
Proof.
  assert (Huser : users Scenario.db !! 2 = Some Scenario.ada) by (vm_compute; reflexivity).
  assert (Hpassword : userInput_fields Scenario.rename !! "password" = Some "byron")
    by (vm_compute; reflexivity).
  split; [exact Huser|]. split; [exact Hpassword|].
  destruct (updateUser_stored_fields Scenario.bcrypt_hash 2 Scenario.rename Scenario.db
              Scenario.ada "byron" Huser Hpassword)
    as [(hashed & Hhashed & Hstored & _) (plain & Hplain & Hverbatim & _)].
  split; [exists hashed|exists plain]; split; assumption.
Defined.

(** X12: what [updateTask] changes.  On an existing task, in both files,
    every scalar field the patch names takes the patch's value and every
    other field keeps its value; no other task and no user, project or team
    document changes. *)
Theorem updateTask_patches_fields
    (taskId : ObjectId) (input : TaskInput) (db : DB) (task : Task) :
  tasks db !! taskId = Some task →
  let patched k := match taskInput_fields input !! k with
                   | Some v => Some v
                   | None => task_fields task !! k
                   end in
  let frame db' :=
    users db' = users db ∧ projects db' = projects db ∧ teams db' = teams db
    ∧ ∀ other, other ≠ taskId → tasks db' !! other = tasks db !! other in
  (∃ task', tasks (Part000.updateTask taskId input db).2 !! taskId = Some task'
            ∧ ∀ k, task_fields task' !! k = patched k)
  ∧ frame (Part000.updateTask taskId input db).2
  ∧ (∃ task', tasks (Resolvers.updateTask taskId input db).2 !! taskId = Some task'
              ∧ ∀ k, task_fields task' !! k = patched k)
  ∧ frame (Resolvers.updateTask taskId input db).2.
Proof.
  intros Htask patched frame.
  unfold Part000.updateTask, Resolvers.updateTask, Task_findOneAndUpdate, Task_findById,
    set_tasks, frame.
  run. rewrite Htask. run. rewrite !lookup_alter_eq, Htask. simpl.
  assert (Hfields : ∀ k, (taskInput_fields input ∪ task_fields task) !! k = patched k)
    by (intros k; apply lookup_union_patch).
  split; [by eexists|]. split.
  { repeat split. intros other Hother. by rewrite lookup_alter_ne. }
  split; [by eexists|].
  repeat split. intros other Hother. by rewrite lookup_alter_ne.
Qed.

Lemma updateTask_patches_fields_witness :
  tasks Scenario.db !! 5 = Some Scenario.task
  ∧ (∃ task', tasks (Part000.updateTask 5 Scenario.reassign Scenario.db).2 !! 5 = Some task'
              ∧ task_fields task' !! "taskStatus" = Some "InProgress"
              ∧ task_fields task' !! "dateDue" = Some "Nov 2 2026").
Proof.
  assert (Htask : tasks Scenario.db !! 5 = Some Scenario.task) by (vm_compute; reflexivity).
  split; [exact Htask|].
  destruct (updateTask_patches_fields 5 Scenario.reassign Scenario.db Scenario.task Htask)
    as ((task' & Htask' & Hfields) & _).
  exists task'. split; [exact Htask'|]. split; rewrite Hfields; vm_compute; reflexivity.
Defined.

Lemma updateTask_absent_witness :
  tasks Scenario.db !! 9 = None
  ∧ Part000.updateTask 9 Scenario.reassign Scenario.db
    = (Threw (Error "Error updating task"), Scenario.db)
  ∧ Resolvers.updateTask 9 Scenario.reassign Scenario.db = (Returned None, Scenario.db).
Proof.
  assert (Habsent : tasks Scenario.db !! 9 = None) by (vm_compute; reflexivity).
  split; [exact Habsent|].
  exact (updateTask_absent 9 Scenario.reassign Scenario.db Habsent).
Defined.

(** ** addTask when the project or the user is missing *)

(** X14: [addTask] for a project that does not exist fails after the task is
    stored.  [part_000] throws "Failed to create task: Project not found",
    [resolvers.js] throws the [TypeError] of reading [tasks] on [null],
    unwrapped; in both the new task document stays in the store and nothing
    else changes.  In a store whose task identifiers are generated ones, the
    new task is then referenced by no project and no user. *)
Theorem addTask_missing_project (sentinelMessage : string)
    (projectId : ObjectId) (input : TaskInput) (db : DB) :
  generated db →
  projects db !! projectId = None →
  let orphaned :=
    mkDB (users db) (teams db) (projects db)
      (<[nextId db := Task_of_input input]> (tasks db)) (S (nextId db)) in
  Part000.addTask sentinelMessage projectId input db
  = (Threw (Error "Failed to create task: Project not found"), orphaned)
  ∧ Resolvers.addTask projectId input db
    = (Threw (TypeError "Cannot read properties of null (reading 'tasks')"), orphaned)
  ∧ tasks orphaned !! nextId db = Some (Task_of_input input)
  ∧ tasks db !! nextId db = None
  ∧ (∀ id project, projects orphaned !! id = Some project →
                   nextId db ∉ project_tasks project)
  ∧ (∀ id user, users orphaned !! id = Some user → nextId db ∉ user_tasks user).
Proof.
  intros Hgen Hproject.
  destruct (generated_fresh db Hgen) as [Hprojects Husers].
  split; [|split; [|split; [|split; [|split]]]].
  - unfold Part000.addTask, Task_create, Project_findById, set_tasks, bump.
    run. rewrite Hproject. by run.
  - unfold Resolvers.addTask, Task_create, Project_findById, set_tasks, bump.
    run. rewrite Hproject. by run.
  - simpl. apply lookup_insert_eq.
  - destruct (tasks db !! nextId db) as [task|] eqn:Htask; [|done].
    assert (nextId db < nextId db) by (eapply generated_tasks; [done|by eexists]).
    lia.
  - exact Hprojects.
  - exact Husers.
Qed.

Lemma addTask_missing_project_witness :
  generated Scenario.db
  ∧ projects Scenario.db !! 9 = None
  ∧ (Part000.addTask "" 9 Scenario.newTask Scenario.db).1
    = Threw (Error "Failed to create task: Project not found")
  ∧ tasks (Part000.addTask "" 9 Scenario.newTask Scenario.db).2 !! 6
    = Some (Task_of_input Scenario.newTask)
  ∧ (∀ id project,
       projects (Part000.addTask "" 9 Scenario.newTask Scenario.db).2 !! id
       = Some project → 6 ∉ project_tasks project)
  ∧ (∀ id user,
       users (Part000.addTask "" 9 Scenario.newTask Scenario.db).2 !! id = Some user →
       6 ∉ user_tasks user).
Proof.
  assert (Hproject : projects Scenario.db !! 9 = None) by (vm_compute; reflexivity).
  split; [exact scenario_generated|]. split; [exact Hproject|].
  destruct (addTask_missing_project "" 9 Scenario.newTask Scenario.db
              scenario_generated Hproject)
    as (Hrun & _ & Htask & _ & Hprojects & Husers).
  rewrite Hrun. split; [reflexivity|]. split; [exact Htask|].
  split; [exact Hprojects|exact Husers].
Defined.

(** X15: [addTask] for an assigned user that does not exist.  With the
    project present, [part_000] throws "Failed to create task: Assigned user
    not found" after it has stored the task and put it on the project's list:
    the task stays there, without the assignee; [resolvers.js] returns the
    task with a [null] assigned user.  The two leave the same store, in which
    no user document has changed. *)
Theorem addTask_missing_user (sentinelMessage : string)
    (projectId : ObjectId) (input : TaskInput) (db : DB) (project : Project) :
  projects db !! projectId = Some project →
  (∀ userId, assignedUserId input = Some userId → users db !! userId = None) →
  let half :=
    mkDB (users db) (teams db)
      (<[projectId := push_task_to_project (nextId db) project]> (projects db))
      (<[nextId db := Task_of_input input]> (tasks db)) (S (nextId db)) in
  Part000.addTask sentinelMessage projectId input db
  = (Threw (Error "Failed to create task: Assigned user not found"), half)
  ∧ Resolvers.addTask projectId input db
    = (Returned (mkTaskWithAssignee (nextId db) (Task_of_input input) None), half).
Proof.
  intros Hproject Huser.
  assert (Hnone : populate_one (users db) (assignedUserId input) = None).
  { unfold populate_one. destruct (assignedUserId input) as [userId|]; [|done].
    simpl. by rewrite (Huser userId). }
  unfold Part000.addTask, Resolvers.addTask, Task_create, Project_findById, Project_save,
    User_findById_opt, set_tasks, set_projects, bump.
  run. rewrite Hproject. run. rewrite Hnone. by run.
Qed.

Lemma addTask_missing_user_witness :
  projects Scenario.db !! 4 = Some Scenario.project
  ∧ (∀ userId, assignedUserId Scenario.taskForNobody = Some userId →
               users Scenario.db !! userId = None)
  ∧ (Part000.addTask "" 4 Scenario.taskForNobody Scenario.db).1
    = Threw (Error "Failed to create task: Assigned user not found")
  ∧ (project_tasks <$> projects (Part000.addTask "" 4 Scenario.taskForNobody Scenario.db).2 !! 4)
    = Some [5; 6].
Proof.
  assert (Hproject : projects Scenario.db !! 4 = Some Scenario.project)
    by (vm_compute; reflexivity).
  assert (Huser : ∀ userId, assignedUserId Scenario.taskForNobody = Some userId →
                            users Scenario.db !! userId = None).
  { intros userId [= <-]. vm_compute. reflexivity. }
  split; [exact Hproject|]. split; [exact Huser|].
  rewrite (proj1 (addTask_missing_user "" 4 Scenario.taskForNobody Scenario.db
                    Scenario.project Hproject Huser)).
  split; [reflexivity|]. vm_compute. reflexivity.
Defined.

(** ** removeTask *)

(** X16: [removeTask] does not cascade.  Removing an existing task returns
    it and deletes that one document; every user, project and team document
    is as before, so lists that referenced the task still do.  The [project]
    query of [part_000] no longer shows the task, because populating skips
    references without a document; removing it again returns [null]. *)
Theorem removeTask_leaves_references (taskId : ObjectId) (db : DB) (task : Task) :
  tasks db !! taskId = Some task →
  ∃ db',
    Part000.removeTask taskId db = (Returned (Some task), db')
    ∧ Resolvers.removeTask taskId db = (Returned (Some task), db')
    ∧ tasks db' !! taskId = None
    ∧ (∀ other, other ≠ taskId → tasks db' !! other = tasks db !! other)
    ∧ users db' = users db ∧ projects db' = projects db ∧ teams db' = teams db
    ∧ (∀ projectId populated,
          (Part000Rest.project projectId db').1 = Returned (Some populated) →
          taskId ∉ (Part000Rest.populated_project_tasks populated).*1.*1)
    ∧ Part000.removeTask taskId db' = (Returned None, db').
Proof.
  intros Htask. exists (set_tasks (delete taskId) db).
  unfold Part000.removeTask, Resolvers.removeTask, Task_findOneAndDelete, Task_findById.
  run. rewrite Htask, lookup_delete_eq.
  split; [done|]. split; [done|]. split; [done|].
  split; [intros other Hother; by rewrite lookup_delete_ne|].
  split; [done|]. split; [done|]. split; [done|]. split.
  - intros projectId populated. unfold Part000Rest.find_one.
    destruct (projects db !! projectId) as [project|]; simpl; [|done].
    intros [= <-]. simpl.
    intros (x & -> & Hin)%list_elem_of_fmap.
    apply list_elem_of_fmap in Hin as (y & -> & Hin).
    apply list_elem_of_fmap in Hin as ([id task'] & -> & Hin).
    apply populate_elem in Hin as [_ Hlookup]. simpl in Hlookup.
    by rewrite lookup_delete_eq in Hlookup.
  - f_equal. unfold set_tasks. simpl. by rewrite delete_delete_eq.
Qed.

Lemma removeTask_leaves_references_witness :
  tasks Scenario.db !! 5 = Some Scenario.task
  ∧ ∃ db',
      Part000.removeTask 5 Scenario.db = (Returned (Some Scenario.task), db')
      ∧ tasks db' !! 5 = None
      ∧ (project_tasks <$> projects db' !! 4) = Some [5]
      ∧ (user_tasks <$> users db' !! 2) = Some [5].
Proof.
  assert (Htask : tasks Scenario.db !! 5 = Some Scenario.task) by (vm_compute; reflexivity).
  split; [exact Htask|].
  destruct (removeTask_leaves_references 5 Scenario.db Scenario.task Htask)
    as (db' & Hrun & _ & Hgone & _ & Husers & Hprojects & _).
  exists db'. split; [exact Hrun|]. split; [exact Hgone|].
  rewrite Husers, Hprojects. split; vm_compute; reflexivity.
Defined.

(** ** addProject without a team, and what it leaves alone *)

(** X17: [addProject] of [part_000] without a usable team.  Without a team
    identifier the call returns the new project, whose team list is the
    one-element array holding [null], and stores that one document only.
    With the identifier of a team that does not exist it throws "Failed to
    create project: Team not found" after the project is stored: the project
    stays, its team list naming the missing team, and nothing else
    changes. *)
Theorem addProject_without_team (sentinelMessage : string)
    (input : Part000.ProjectInput) (db : DB) :
  let stored project :=
    mkDB (users db) (teams db) (<[nextId db := project]> (projects db))
      (tasks db) (S (nextId db)) in
  (Part000.teamId input = None →
     let project := {| project_fields := Part000.projectInput_fields input;
                       project_tasks := []; project_team := [None] |} in
     Part000.addProject sentinelMessage input db
     = (Returned (nextId db, project), stored project))
  ∧ (∀ teamId,
        Part000.teamId input = Some teamId → teams db !! teamId = None →
        let project := {| project_fields := Part000.projectInput_fields input;
                          project_tasks := []; project_team := [Some teamId] |} in
        Part000.addProject sentinelMessage input db
        = (Threw (Error "Failed to create project: Team not found"), stored project)).
Proof.
  unfold Part000.addProject, Project_create, Team_findById, set_projects, bump.
  split.
  - intros HteamId. run. rewrite HteamId. by run.
  - intros teamId HteamId Hteam. run. rewrite HteamId. run. rewrite Hteam. by run.
Qed.

Lemma addProject_without_team_witness :
  Part000.teamId Scenario.projectWithoutTeam = None
  ∧ (∃ project,
       (Part000.addProject "" Scenario.projectWithoutTeam Scenario.db).1
       = Returned (6, project)
       ∧ project_team project = [None]
       ∧ projects (Part000.addProject "" Scenario.projectWithoutTeam Scenario.db).2 !! 6
         = Some project)
  ∧ Part000.teamId Scenario.projectForNoTeam = Some 9
  ∧ teams Scenario.db !! 9 = None
  ∧ (Part000.addProject "" Scenario.projectForNoTeam Scenario.db).1
    = Threw (Error "Failed to create project: Team not found")
  ∧ (project_team <$> projects (Part000.addProject "" Scenario.projectForNoTeam Scenario.db).2 !! 6)
    = Some [Some 9].
Proof.
  assert (Hteam : teams Scenario.db !! 9 = None) by (vm_compute; reflexivity).
  split; [reflexivity|]. split.
  { rewrite (proj1 (addProject_without_team "" Scenario.projectWithoutTeam Scenario.db)
               eq_refl).
    eexists. split; [reflexivity|]. split; [reflexivity|]. vm_compute. reflexivity. }
  split; [reflexivity|]. split; [exact Hteam|].
  rewrite (proj2 (addProject_without_team "" Scenario.projectForNoTeam Scenario.db)
             9 eq_refl Hteam).
  split; [reflexivity|]. vm_compute. reflexivity.
Defined.

(** X18: what a successful [addProject] of [part_000] with a team changes.
    Besides the new project document and the team's project list, it changes
    exactly the users on the team's member list, and of each only the project
    list, by appending the new identifier; every other user, team and project
    and every task is as before. *)
Theorem addProject_changes_only_the_team (sentinelMessage : string)
    (input : Part000.ProjectInput) (db : DB) teamId result db' :
  Part000.addProject sentinelMessage input db = (Returned result, db') →
  Part000.teamId input = Some teamId →
  ∃ team,
    teams db !! teamId = Some team
    ∧ result.1 = nextId db
    ∧ tasks db' = tasks db
    ∧ teams db' = <[teamId := push_project_to_team result.1 team]> (teams db)
    ∧ projects db' = <[result.1 := result.2]> (projects db)
    ∧ ∀ userId,
        users db' !! userId
        = if decide (userId ∈ members team)
          then push_project_to_user result.1 <$> users db !! userId
          else users db !! userId.
Proof.
  intros Hrun HteamId.
  destruct (addProject_team_returned _ _ _ _ _ _ Hrun HteamId) as [team Hteam].
  rewrite (addProject_team_run sentinelMessage _ _ _ _ HteamId Hteam) in Hrun.
  injection Hrun as <- <-. simpl. exists team. repeat split; try done.
  intros userId. destruct (users db !! userId) as [user|] eqn:Huser.
  - case_decide as Hmember.
    + apply saved_lookup; [apply find_in_NoDup|]. by apply find_in_spec.
    + rewrite saved_lookup_other; [done|].
      intros ((id & user') & -> & Hin)%list_elem_of_fmap.
      apply find_in_spec in Hin as [_ Hin]. done.
  - rewrite saved_lookup_other.
    + rewrite Huser. by case_decide.
    + intros ((id & user') & -> & Hin)%list_elem_of_fmap.
      apply find_in_spec in Hin as [Hin _]. simpl in *. congruence.
Qed.

Lemma addProject_changes_only_the_team_witness :
  ∃ result db',
    Part000.addProject "" Scenario.newProject Scenario.db = (Returned result, db')
    ∧ Part000.teamId Scenario.newProject = Some 1
    ∧ tasks db' = tasks Scenario.db
    ∧ (user_projects <$> users db' !! 2) = Some [4; 6]
    ∧ (user_tasks <$> users db' !! 2) = Some [5].
Proof.
  eexists _, _. split; [vm_compute; reflexivity|]. split; [reflexivity|].
  destruct (addProject_changes_only_the_team "" Scenario.newProject Scenario.db 1
              _ _ ltac:(vm_compute; reflexivity) eq_refl)
    as (team & _ & _ & Htasks & _).
  split; [exact Htasks|]. split; vm_compute; reflexivity.
Defined.

(** ** addUser *)

Section AddUser.
Variable signToken : ObjectId → User → string.
Variables (input : UserInput) (db : DB).

Let created : User :=
  {| user_fields := userInput_fields input; user_projects := [];
     user_tasks := []; user_team := None |}.

Lemma addUser_team_run teamId team :
  userInput_teamId input = Some teamId →
  teams db !! teamId = Some team →
  let user := set_user_team teamId created in
  Part000Rest.addUser signToken input db
  = (Returned (mkAuth (nextId db, user) (signToken (nextId db) user)),
     mkDB (<[nextId db := user]> (<[nextId db := created]> (users db)))
       (<[teamId := push_member (nextId db) team]> (teams db))
       (projects db) (tasks db) (S (nextId db)))
  ∧ ResolversRest.addUser input db
    = (Returned (nextId db, user),
       mkDB (<[nextId db := user]> (<[nextId db := created]> (users db)))
         (teams db) (projects db) (tasks db) (S (nextId db))).
Proof.
  intros HteamId Hteam.
  unfold Part000Rest.addUser, ResolversRest.addUser, User_create, Team_findById,
    User_save, Team_save, set_users, set_teams, bump.
  run. rewrite HteamId. run. rewrite Hteam. by run.
Qed.

End AddUser.

(** X20: [addUser] with an existing team.  In [part_000] the new user and
    the team are linked both ways - the user's team is the team and the
    team's member list ends with the new user - and a token signed for the
    stored user is returned.  In [resolvers.js] only the user's team is set:
    no team document changes, and no token is returned. *)
Theorem addUser_links_user_and_team (signToken : ObjectId → User → string)
    (input : UserInput) (db : DB) teamId team :
  userInput_teamId input = Some teamId →
  teams db !! teamId = Some team →
  ∃ user,
    user_team user = Some teamId
    ∧ user_fields user = userInput_fields input
    ∧ (∃ db',
          Part000Rest.addUser signToken input db
          = (Returned (mkAuth (nextId db, user) (signToken (nextId db) user)), db')
          ∧ users db' !! nextId db = Some user
          ∧ (members <$> teams db' !! teamId) = Some (members team ++ [nextId db]))
    ∧ (∃ db',
          ResolversRest.addUser input db = (Returned (nextId db, user), db')
          ∧ users db' !! nextId db = Some user
          ∧ teams db' = teams db).
Proof.
  intros HteamId Hteam.
  destruct (addUser_team_run signToken input db teamId team HteamId Hteam) as [Hrun Hrun'].
  eexists. split; [|split; [|split]].
  3: { eexists. split; [exact Hrun|]. simpl. by rewrite !lookup_insert_eq. }
  3: { eexists. split; [exact Hrun'|]. simpl. by rewrite lookup_insert_eq. }
  all: done.
Qed.

Lemma addUser_links_witness :
  userInput_teamId Scenario.joining = Some 1
  ∧ teams Scenario.db !! 1 = Some Scenario.team
  ∧ ∃ db',
      (Part000Rest.addUser Scenario.signToken Scenario.joining Scenario.db).2 = db'
      ∧ (user_team <$> users db' !! 6) = Some (Some 1)
      ∧ (members <$> teams db' !! 1) = Some [2; 3; 6].
Proof.
  assert (Hteam : teams Scenario.db !! 1 = Some Scenario.team) by (vm_compute; reflexivity).
  split; [reflexivity|]. split; [exact Hteam|].
  destruct (addUser_links_user_and_team Scenario.signToken Scenario.joining Scenario.db
              1 Scenario.team eq_refl Hteam)
    as (user & Hlinked & _ & (db' & Hrun & Huser & Hmembers) & _).
  exists db'. split; [by rewrite Hrun|].
  change (nextId Scenario.db) with 6 in Huser, Hmembers. unfold ObjectId in *.
  rewrite Huser, Hmembers. simpl. by rewrite Hlinked.
Defined.

(** X21: [addUser] naming a team that does not exist fails after the user is
    stored.  [part_000] replaces the error by "Failed to add user";
    [resolvers.js], whose [try] does not enclose the promise callbacks, lets
    "Team not found" through as it is.  In both the new user document stays
    in the store, without a team, and nothing else changes. *)
Theorem addUser_missing_team (signToken : ObjectId → User → string)
    (input : UserInput) (db : DB) teamId :
  userInput_teamId input = Some teamId →
  teams db !! teamId = None →
  let created := {| user_fields := userInput_fields input; user_projects := [];
                    user_tasks := []; user_team := None |} in
  let stored :=
    mkDB (<[nextId db := created]> (users db)) (teams db) (projects db) (tasks db)
      (S (nextId db)) in
  Part000Rest.addUser signToken input db = (Threw (Error "Failed to add user"), stored)
  ∧ ResolversRest.addUser input db = (Threw (Error "Team not found"), stored).
Proof.
  intros HteamId Hteam.
  unfold Part000Rest.addUser, ResolversRest.addUser, User_create, Team_findById,
    set_users, bump.
  run. rewrite HteamId. run. rewrite Hteam. by run.
Qed.

Lemma addUser_missing_team_witness :
  userInput_teamId Scenario.joiningNowhere = Some 9
  ∧ teams Scenario.db !! 9 = None
  ∧ (Part000Rest.addUser Scenario.signToken Scenario.joiningNowhere Scenario.db).1
    = Threw (Error "Failed to add user")
  ∧ (ResolversRest.addUser Scenario.joiningNowhere Scenario.db).1
    = Threw (Error "Team not found")
  ∧ (user_team <$> users (ResolversRest.addUser Scenario.joiningNowhere Scenario.db).2 !! 6)
    = Some None.
Proof.
  assert (Hteam : teams Scenario.db !! 9 = None) by (vm_compute; reflexivity).
  split; [reflexivity|]. split; [exact Hteam|].
  destruct (addUser_missing_team Scenario.signToken Scenario.joiningNowhere Scenario.db
              9 eq_refl Hteam) as [-> ->].
  split; [reflexivity|]. split; [reflexivity|]. vm_compute. reflexivity.
Defined.

(** X22: membership decides who receives a project.  Let a user be added
    with an existing team and a project then be added for that team with
    [addProject] of [part_000].  If the user was added by [addUser] of
    [part_000], the user's project list holds the new project.  If the user
    was added by [addUser] of [resolvers.js], which does not put the user on
    the team's member list, the user's project list stays empty. *)
Theorem addUser_then_addProject (signToken : ObjectId → User → string)
    (sentinelMessage : string) (userInput : UserInput)
    (projectInput : Part000.ProjectInput) (db : DB) teamId team :
  userInput_teamId userInput = Some teamId →
  Part000.teamId projectInput = Some teamId →
  teams db !! teamId = Some team →
  nextId db ∉ members team →
  let linked := (Part000Rest.addUser signToken userInput db).2 in
  let unlinked := (ResolversRest.addUser userInput db).2 in
  (user_projects
     <$> users (Part000.addProject sentinelMessage projectInput linked).2 !! nextId db)
  = Some [S (nextId db)]
  ∧ (user_projects
       <$> users (Part000.addProject sentinelMessage projectInput unlinked).2 !! nextId db)
    = Some [].
Proof.
  intros HuserTeam HprojectTeam Hteam Hfresh.
  destruct (addUser_team_run signToken userInput db teamId team HuserTeam Hteam)
    as [-> ->].
  simpl. split.
  - erewrite addProject_team_run; [|done|simpl; apply lookup_insert_eq]. simpl.
    erewrite saved_lookup; [|apply find_in_NoDup|].
    2:{ apply find_in_spec. simpl. split; [by rewrite lookup_insert_eq|].
        apply elem_of_app. right. by left. }
    done.
  - erewrite addProject_team_run; [|done|exact Hteam]. simpl.
    rewrite saved_lookup_other.
    + by rewrite lookup_insert_eq.
    + intros ((id & user) & Hid & Hin)%list_elem_of_fmap. simpl in Hid. subst id.
      by apply find_in_spec in Hin as [_ Hin].
Qed.

Lemma addUser_then_addProject_witness :
  userInput_teamId Scenario.joining = Some 1
  ∧ Part000.teamId Scenario.newProject = Some 1
  ∧ teams Scenario.db !! 1 = Some Scenario.team
  ∧ (nextId Scenario.db ∉ members Scenario.team)
  ∧ (user_projects
       <$> users (Part000.addProject "" Scenario.newProject
                    (Part000Rest.addUser Scenario.signToken Scenario.joining Scenario.db).2).2
           !! nextId Scenario.db)
    = Some [S (nextId Scenario.db)]
  ∧ (user_projects
       <$> users (Part000.addProject "" Scenario.newProject
                    (ResolversRest.addUser Scenario.joining Scenario.db).2).2
           !! nextId Scenario.db)
    = Some [].
Proof.
  assert (Hteam : teams Scenario.db !! 1 = Some Scenario.team) by (vm_compute; reflexivity).
  assert (Hfresh : nextId Scenario.db ∉ members Scenario.team).
  { simpl. rewrite !not_elem_of_cons. repeat split; try discriminate.
    apply not_elem_of_nil. }
  split; [reflexivity|]. split; [reflexivity|]. split; [exact Hteam|].
  split; [exact Hfresh|].
  exact (addUser_then_addProject Scenario.signToken "" Scenario.joining
           Scenario.newProject Scenario.db 1 Scenario.team eq_refl eq_refl Hteam Hfresh).
Defined.

(** X23: [updateProject] for an identifier with no project.  [part_000]
    answers [null]; [resolvers.js] throws, and the message the caller sees
    is the one of the [catch] block, never "Project not found".  Neither
    changes the store. *)
Theorem updateProject_absent (projectId : ObjectId)
    (input : Part000.ProjectInput) (input' : Resolvers.ProjectInput) (db : DB) :
  projects db !! projectId = None →
  Part000Rest.updateProject projectId input db = (Returned None, db)
  ∧ ResolversRest.updateProject projectId input' db
    = (Threw (Error "Failed to update project"), db).
Proof.
  intros Habsent.
  unfold Part000Rest.updateProject, ResolversRest.updateProject,
    Project_findOneAndUpdate, Project_findById, set_projects.
  run. rewrite Habsent. run. rewrite alter_absent by done. by destruct db.
Qed.

Lemma updateProject_absent_witness :
  projects Scenario.db !! 9 = None
  ∧ Part000Rest.updateProject 9 Scenario.completing Scenario.db
    = (Returned None, Scenario.db)
  ∧ ResolversRest.updateProject 9 Scenario.replacing Scenario.db
    = (Threw (Error "Failed to update project"), Scenario.db).
Proof.
  split; [vm_compute; reflexivity|].
  apply (updateProject_absent 9 Scenario.completing Scenario.replacing Scenario.db).
  vm_compute. reflexivity.
Defined.

(** X24: [updateProject] of [part_000] on a stored project.  The returned
    project is the stored one; a path of the input has the input's value and
    every other path keeps its value; the task list is kept; a team
    identifier in the input becomes the whole team list, whether or not such
    a team exists, and the populated list then holds that team or nothing.
    Users, teams and tasks are left as they were: no project list of a team
    or of a member is touched. *)
Theorem updateProject_sets_fields_and_team (projectId : ObjectId)
    (input : Part000.ProjectInput) (db : DB) project :
  projects db !! projectId = Some project →
  ∃ updated populated db',
    Part000Rest.updateProject projectId input db
    = (Returned (Some (updated, populated)), db')
    ∧ projects db' = <[projectId := updated]> (projects db)
    ∧ users db' = users db ∧ teams db' = teams db ∧ tasks db' = tasks db
    ∧ nextId db' = nextId db
    ∧ (∀ key, project_fields updated !! key
              = match Part000.projectInput_fields input !! key with
                | Some value => Some value
                | None => project_fields project !! key
                end)
    ∧ project_tasks updated = project_tasks project
    ∧ match Part000.teamId input with
      | Some teamId =>
          project_team updated = [Some teamId]
          ∧ populated = match teams db !! teamId with
                        | Some team => [(teamId, team)]
                        | None => []
                        end
      | None =>
          project_team updated = project_team project
          ∧ populated = populate (teams db) (references (project_team project))
      end.
Proof.
  intros Hproject.
  unfold Part000Rest.updateProject, Project_findOneAndUpdate, Project_findById,
    set_projects.
  run. rewrite Hproject. simpl. eexists _, _, _. split; [reflexivity|]. simpl.
  split.
  { apply map_eq. intros id. rewrite lookup_alter.
    case_decide; [subst; by rewrite lookup_insert_eq, Hproject|].
    by rewrite lookup_insert_ne. }
  do 4 (split; [done|]). split; [intros key; apply lookup_union_patch|].
  split; [done|].
  destruct (Part000.teamId input) as [teamId|]; simpl; [|done].
  split; [done|]. unfold populate. simpl. by destruct (teams db !! teamId).
Qed.

Lemma updateProject_sets_witness :
  projects Scenario.db !! 4 = Some Scenario.project
  ∧ ∃ updated populated db',
      Part000Rest.updateProject 4 Scenario.completing Scenario.db
      = (Returned (Some (updated, populated)), db')
      ∧ project_team updated = [Some 8] ∧ populated = []
      ∧ teams db' = teams Scenario.db.
Proof.
  split; [vm_compute; reflexivity|].
  destruct (updateProject_sets_fields_and_team 4 Scenario.completing Scenario.db
              Scenario.project)
    as (updated & populated & db' & Hrun & _ & _ & Hteams & _ & _ & _ & _ & Hteam);
    [vm_compute; reflexivity|].
  exists updated, populated, db'. split; [exact Hrun|].
  simpl in Hteam. destruct Hteam as [Hteam Hpopulated].
  split; [exact Hteam|]. split; [|exact Hteams].
  rewrite Hpopulated. vm_compute. reflexivity.
Defined.

(** X25: [updateProject] of [resolvers.js] on a stored project.  The
    returned project is the one saved under the identifier and nothing else
    in the store changes.  Without team identifiers the task and team lists
    are kept.  With at least one team identifier both lists are replaced:
    the team list holds exactly the identifiers given that have a team, the
    task list exactly the task identifiers given that have a task - so the
    tasks of the project are dropped when no task identifier comes along. *)
Theorem updateProject_replaces_lists (projectId : ObjectId)
    (input : Resolvers.ProjectInput) (db : DB) project :
  projects db !! projectId = Some project →
  ∃ updated,
    ResolversRest.updateProject projectId input db
    = (Returned updated, set_projects (insert projectId updated) db)
    ∧ (∀ key, project_fields updated !! key
              = match Resolvers.projectInput_fields input !! key with
                | Some value => Some value
                | None => project_fields project !! key
                end)
    ∧ (Resolvers.teamIds input = [] →
         project_tasks updated = project_tasks project
         ∧ project_team updated = project_team project)
    ∧ (Resolvers.teamIds input ≠ [] →
         (∀ ref, ref ∈ project_team updated
                 ↔ ∃ id, ref = Some id
                         ∧ id ∈ Resolvers.teamIds input ∧ is_Some (teams db !! id))
         ∧ (∀ id, id ∈ project_tasks updated
                  ↔ id ∈ Resolvers.taskIds input ∧ is_Some (tasks db !! id))).
Proof.
  intros Hproject.
  assert (Hfound : ∀ A (ids : list ObjectId) (coll : gmap ObjectId A) id,
            id ∈ (find_in ids coll).*1 ↔ id ∈ ids ∧ is_Some (coll !! id)).
  { intros A ids coll id. rewrite list_elem_of_fmap. split.
    - intros ((id' & doc) & -> & [Hdoc Hin]%find_in_spec). eauto.
    - intros (Hin & doc & Hdoc). exists (id, doc). split; [done|].
      by apply find_in_spec. }
  unfold ResolversRest.updateProject, Project_findById, Project_save.
  run. rewrite Hproject. run.
  destruct (bool_decide_reflect (Resolvers.teamIds input ≠ [])) as [Hteams|Hteams];
    run; eexists; (split; [reflexivity|]); simpl;
    (split; [intros key; apply lookup_union_patch|]).
  - split; [done|]. intros _. split; [|intros id; apply Hfound].
    intros ref. rewrite list_elem_of_fmap. split.
    + intros (id & -> & Hin). exists id. split; [done|]. by apply Hfound.
    + intros (id & -> & Hin). exists id. split; [done|]. by apply Hfound.
  - split; [done|]. intros Hne. by destruct Hteams.
Qed.

Lemma updateProject_replaces_witness :
  projects Scenario.db !! 4 = Some Scenario.project
  ∧ ∃ updated,
      ResolversRest.updateProject 4 Scenario.replacing Scenario.db
      = (Returned updated, set_projects (insert 4 updated) Scenario.db)
      ∧ project_team updated = [Some 1] ∧ project_tasks updated = [].
Proof.
  split; [vm_compute; reflexivity|].
  destruct (updateProject_replaces_lists 4 Scenario.replacing Scenario.db
              Scenario.project) as (updated & Hrun & _);
    [vm_compute; reflexivity|].
  exists updated. split; [exact Hrun|].
  vm_compute in Hrun. injection Hrun as <- _. split; reflexivity.
Defined.

(** X26: no mutation of either file breaks the discipline of task
    identifiers.  If every task, and every task reference on a project or a
    user, lies below the next identifier the store hands out, the same holds
    of the store any mutation leaves behind - whether it returns or throws,
    and whatever it has written before it throws.  So the identifier
    [addTask] generates is never the one of a stored task nor on any list. *)
Theorem mutations_keep_task_ids_generated
    (signToken : ObjectId → User → string) (sentinelMessage : string)
    (bcrypt_hash : string → nat → string) (id : ObjectId)
    (userInput : UserInput) (taskInput : TaskInput)
    (projectInput : Part000.ProjectInput) (projectInput' : Resolvers.ProjectInput)
    (db : DB) :
  generated db →
  (generated (Part000Rest.addUser signToken userInput db).2
   ∧ generated (Part000.updateUser bcrypt_hash id userInput db).2
   ∧ generated (Part000.removeUser id db).2
   ∧ generated (Part000.addProject sentinelMessage projectInput db).2
   ∧ generated (Part000Rest.updateProject id projectInput db).2
   ∧ generated (Part000.removeProject id db).2
   ∧ generated (Part000.addTask sentinelMessage id taskInput db).2
   ∧ generated (Part000.updateTask id taskInput db).2
   ∧ generated (Part000.removeTask id db).2)
  ∧ (generated (ResolversRest.addUser userInput db).2
     ∧ generated (Resolvers.updateUser id userInput db).2
     ∧ generated (Resolvers.removeUser id db).2
     ∧ generated (Resolvers.addProject projectInput' db).2
     ∧ generated (ResolversRest.updateProject id projectInput' db).2
     ∧ generated (Resolvers.removeProject id db).2
     ∧ generated (Resolvers.addTask id taskInput db).2
     ∧ generated (Resolvers.updateTask id taskInput db).2
     ∧ generated (Resolvers.removeTask id db).2).
Proof.
  intros Hgen.
  destruct (addTask_generated sentinelMessage id taskInput db Hgen)
    as [HaddTask HaddTask'].
  destruct (addProject_generated sentinelMessage projectInput projectInput' db Hgen)
    as [HaddProject HaddProject'].
  destruct (update_remove_generated bcrypt_hash id userInput taskInput db Hgen)
    as (HupdateUser & HupdateUser' & HupdateTask & HupdateTask'
        & HremoveUser & HremoveProject & HremoveTask).
  assert (Hcreated : ∀ team,
            generated (set_users (insert (nextId db)
                         {| user_fields := userInput_fields userInput;
                            user_projects := []; user_tasks := [];
                            user_team := team |}) (bump db))).
  { intros team. apply generated_insert_user; [by apply generated_bump|].
    apply Forall_nil_2. }
  assert (HaddUser : generated (Part000Rest.addUser signToken userInput db).2
                     ∧ generated (ResolversRest.addUser userInput db).2).
  { unfold Part000Rest.addUser, ResolversRest.addUser, User_create, Team_findById,
      User_save, Team_save.
    run. destruct (userInput_teamId userInput) as [teamId|]; run;
      [|split; apply Hcreated].
    destruct (teams db !! teamId) as [team|]; run; [|split; apply Hcreated].
    split.
    - apply generated_set_teams.
      apply (generated_insert_user _ (Hcreated None)). apply Forall_nil_2.
    - apply (generated_insert_user _ (Hcreated None)). apply Forall_nil_2. }
  assert (HupdateProject : generated (Part000Rest.updateProject id projectInput db).2).
  { unfold Part000Rest.updateProject, Project_findOneAndUpdate, Project_findById.
    run. destruct Hgen as [Ht Hp Hu]. constructor; simpl; [done| |done].
    intros id' doc'. rewrite lookup_alter. case_decide; [subst|by apply Hp].
    intros (project & Hproject & ->)%fmap_Some. simpl. by eapply Hp. }
  assert (HupdateProject' :
            generated (ResolversRest.updateProject id projectInput' db).2).
  { unfold ResolversRest.updateProject, Project_findById, Project_save.
    run. destruct (projects db !! id) as [project|] eqn:Hproject; run; [|done].
    destruct (bool_decide (Resolvers.teamIds projectInput' ≠ [])); run;
      apply generated_insert_project; try done; simpl.
    - apply Forall_forall. intros taskId Hin.
      apply list_elem_of_fmap in Hin as ((taskId' & task) & -> & Hin).
      apply find_in_spec in Hin as [Htask _]. simpl.
      eapply generated_tasks; [done|by eexists].
    - by eapply generated_project_tasks. }
  destruct HaddUser as [HaddUser HaddUser'].
  split; repeat apply conj; done.
Qed.

Lemma mutations_keep_witness :
  generated Scenario.db
  ∧ generated (Part000Rest.addUser Scenario.signToken Scenario.joining Scenario.db).2
  ∧ generated (ResolversRest.updateProject 4 Scenario.replacing Scenario.db).2.
Proof.
  split; [exact scenario_generated|].
  pose proof (mutations_keep_task_ids_generated Scenario.signToken ""
                Scenario.bcrypt_hash 4 Scenario.joining Scenario.newTask
                Scenario.completing Scenario.replacing Scenario.db
                scenario_generated) as [Hpart Hresolvers].
  split; [exact (proj1 Hpart)|].
  exact (proj1 (proj2 (proj2 (proj2 (proj2 Hresolvers))))).
Defined.

(** X27: what a successful [login] returns.  If [login] of [part_000]
    returns, the store is unchanged, the user returned is a stored user with
    the e-mail given whose password check accepted the password, and the
    token is the one signed for that user.  [login] of [resolvers.js] then
    returns as well, with the same token and the same user, populated. *)
Theorem login_returns_matching_user
    (isCorrectPassword : User → string → bool) (signToken : ObjectId → User → string)
    (email password : string) (db : DB) auth db' :
  Part000.login isCorrectPassword signToken email password db = (Returned auth, db') →
  db' = db
  ∧ ∃ id user,
      auth = mkAuth (id, user) (signToken id user)
      ∧ users db !! id = Some user
      ∧ user_fields user !! "email" = Some email
      ∧ isCorrectPassword user password = true
      ∧ Resolvers.login isCorrectPassword signToken email password db
        = (Returned (mkAuth (Resolvers.populate_user db (id, user)) (signToken id user)),
           db).
Proof.
  unfold Part000.login, Resolvers.login, User_findOne_email. run.
  destruct (first_with_email email db) as [[id user]|] eqn:Hfound; run; [|done].
  destruct (isCorrectPassword user password) eqn:Hok; run; [|done].
  intros [= <- <-]. split; [done|]. exists id, user.
  apply first_with_email_Some in Hfound as [Huser Hemail]. by rewrite Hok.
Qed.

Lemma login_returns_witness :
  ∃ auth db',
    Part000.login Scenario.isCorrectPassword Scenario.signToken
      "ada@example.org" "lovelace" Scenario.db = (Returned auth, db')
    ∧ db' = Scenario.db
    ∧ ∃ id user,
        auth = mkAuth (id, user) (Scenario.signToken id user)
        ∧ users Scenario.db !! id = Some user
        ∧ user_fields user !! "email" = Some "ada@example.org"
        ∧ Scenario.isCorrectPassword user "lovelace" = true
        ∧ Resolvers.login Scenario.isCorrectPassword Scenario.signToken
            "ada@example.org" "lovelace" Scenario.db
          = (Returned (mkAuth (Resolvers.populate_user Scenario.db (id, user))
                         (Scenario.signToken id user)),
             Scenario.db).
Proof.
  eexists _, _. split; [vm_compute; reflexivity|].
  apply (login_returns_matching_user Scenario.isCorrectPassword Scenario.signToken
           "ada@example.org" "lovelace" Scenario.db).
  vm_compute. reflexivity.
Defined.

End ResolverExtra.
